(** * QuadTree: a shallow embedding of [quadTree.cpp]

    The program builds a uniform quadtree over a rectangle.  Every node
    carries an identity drawn from the static counter [QuadTree::nextId],
    a top-left corner, a width and a height, and four nullable child
    pointers.  [subdivide] splits a node recursively until one dimension
    is at most 15; [toDotty] renders the tree as a Graphviz document.

    The embedding keeps the shape of the C++ code: [int] values are
    integers with the two's-complement wrap-around of a 32-bit machine
    written out, the four child pointers are four separate [option]
    fields, and the static counter and [std::cout] are threaded through a
    small state monad. *)

From Stdlib Require Import ZArith List String Ascii Bool Lia.
From Stdlib Require Import DecimalString DecimalPos DecimalZ.
From stdpp Require Import base tactics option list numbers.

Local Open Scope Z_scope.

(** ** Machine integers *)

Module Int.

Definition INT_MIN : Z := - 2 ^ 31.
Definition INT_MAX : Z := 2 ^ 31 - 1.

(** Reduction of an integer to the 32-bit two's-complement range. *)
Definition wrap (z : Z) : Z := (z + 2 ^ 31) mod 2 ^ 32 - 2 ^ 31.

Definition in_range (z : Z) : Prop := INT_MIN <= z <= INT_MAX.

(** [a + b] on [int].  Signed overflow is undefined in C++; the embedding
    takes the two's-complement result, and the properties that need an
    exact sum say so. *)
Definition add (a b : Z) : Z := wrap (a + b).

(** [a / b] on [int]: C++ division truncates towards zero. *)
Definition div (a b : Z) : Z := Z.quot a b.

(** [std::to_string(int)]. *)
Definition to_string (z : Z) : string := NilZero.string_of_int (Z.to_int z).

End Int.

(** ** Data model *)

(** [struct Point]. *)
Record Point := mkPoint { x : Z; y : Z }.

(** [Point::toString]. *)
Definition Point_toString (p : Point) : string :=
  ("(" ++ Int.to_string (x p) ++ ", " ++ Int.to_string (y p) ++ ")")%string.

(** [class QuadTree]: the data members, in declaration order.  A child
    pointer is [None] for [nullptr] and [Some c] when it owns the node [c]. *)
#[local] Unset Elimination Schemes.
Inductive QuadTree : Type := mkQuadTree {
  _id : Z;
  _pos : Point;
  _width : Z;
  _height : Z;
  _northWest : option QuadTree;
  _northEast : option QuadTree;
  _southWest : option QuadTree;
  _southEast : option QuadTree
}.
#[local] Set Elimination Schemes.

(** The process state the class touches: the static member [nextId], the
    text written to [std::cout] so far, and a ghost history [created]
    listing the identities of the nodes in the order in which their
    constructor ran.  No code reads [created]; it only records time. *)
Record State := mkState {
  nextId : Z;
  cout : string;
  created : list Z
}.

(** [int QuadTree::nextId = 0;] before anything has run. *)
Definition initial_state : State := mkState 0 "" [].

(** ** The state monad of the embedding *)

Definition M (A : Type) : Type := State -> A * State.

Definition ret {A} (a : A) : M A := fun s => (a, s).

Definition bind {A B} (m : M A) (k : A -> M B) : M B :=
  fun s => let (a, s') := m s in k a s'.

(** The same with failure, for the fuel-indexed recursion. *)
Definition F (A : Type) : Type := State -> option (A * State).

Definition retF {A} (a : A) : F A := fun s => Some (a, s).

Definition bindF {A B} (m : F A) (k : A -> F B) : F B :=
  fun s => match m s with
           | Some (a, s') => k a s'
           | None => None
           end.

Definition lift {A} (m : M A) : F A := fun s => Some (m s).

Definition out_of_fuel {A} : F A := fun _ => None.

Declare Scope monad_scope.
Delimit Scope monad_scope with monad.
Notation "x <- m ;; k" := (bind m (fun x => k))
  (at level 100, m at next level, right associativity) : monad_scope.
Notation "x <-? m ;; k" := (bindF m (fun x => k))
  (at level 100, m at next level, right associativity) : monad_scope.
Local Open Scope monad_scope.

(** [nextId++]: yields the old value and stores the incremented one. *)
Definition post_increment_nextId : M Z :=
  fun s => (nextId s, mkState (Int.add (nextId s) 1) (cout s) (created s)).

(** [std::cout << text]. *)
Definition write_cout (text : string) : M unit :=
  fun s => (tt, mkState (nextId s) (cout s ++ text)%string (created s)).

(** Ghost step: remember that the node [id] has just been constructed. *)
Definition record_created (id : Z) : M unit :=
  fun s => (tt, mkState (nextId s) (cout s) (created s ++ [id])).

(** ** The constructor *)

(** [QuadTree::QuadTree(Point pos, int width, int height)]. *)
Definition new_QuadTree (pos : Point) (width height : Z) : M QuadTree :=
  id <- post_increment_nextId ;;
  _ <- record_created id ;;
  ret (mkQuadTree id pos width height None None None None).

(** The node the constructor builds. *)
Definition leaf (id : Z) (pos : Point) (width height : Z) : QuadTree :=
  mkQuadTree id pos width height None None None None.

(** ** [subdivide] *)

Definition is_null (p : option QuadTree) : bool :=
  match p with None => true | Some _ => false end.

(** The guard of [subdivide]:
    [_width <= 15 || _height <= 15 || _northWest != nullptr]. *)
Definition cannot_subdivide (this : QuadTree) : bool :=
  (_width this <=? 15) || (_height this <=? 15) || negb (is_null (_northWest this)).

Definition endl : string := String "010"%char EmptyString.

(** The line the guard writes to [std::cout]. *)
Definition diagnostic (this : QuadTree) : string :=
  ("Node " ++ Int.to_string (_id this) ++ ": Cannot subdivide further (Size="
   ++ Int.to_string (_width this) ++ "x" ++ Int.to_string (_height this)
   ++ "). Marking as leaf." ++ endl)%string.

(** The four assignments to the child pointers of [this]. *)
Definition set_children (this : QuadTree) (nw ne sw se : QuadTree) : QuadTree :=
  mkQuadTree (_id this) (_pos this) (_width this) (_height this)
             (Some nw) (Some ne) (Some sw) (Some se).

(** [QuadTree::subdivide], with the recursion depth bounded by [fuel].
    The children are constructed first, all four, and only then
    subdivided, each in place. *)
Fixpoint subdivide_fuel (fuel : nat) (this : QuadTree) : F QuadTree :=
  if cannot_subdivide this then
    lift (_ <- write_cout (diagnostic this) ;; ret this)
  else
    match fuel with
    | O => out_of_fuel
    | S fuel' =>
        let childWidth := Int.div (_width this) 2 in
        let childHeight := Int.div (_height this) 2 in
        nw <-? lift (new_QuadTree (mkPoint (x (_pos this)) (y (_pos this)))
                                  childWidth childHeight) ;;
        ne <-? lift (new_QuadTree (mkPoint (Int.add (x (_pos this)) childWidth) (y (_pos this)))
                                  childWidth childHeight) ;;
        sw <-? lift (new_QuadTree (mkPoint (x (_pos this)) (Int.add (y (_pos this)) childHeight))
                                  childWidth childHeight) ;;
        se <-? lift (new_QuadTree (mkPoint (Int.add (x (_pos this)) childWidth)
                                           (Int.add (y (_pos this)) childHeight))
                                  childWidth childHeight) ;;
        nw' <-? subdivide_fuel fuel' nw ;;
        ne' <-? subdivide_fuel fuel' ne ;;
        sw' <-? subdivide_fuel fuel' sw ;;
        se' <-? subdivide_fuel fuel' se ;;
        retF (set_children this nw' ne' sw' se')
    end.

(** Enough fuel for any node: the width halves at every level and the
    guard stops at 15, so the depth is below [log2 width]. *)
Definition depth_bound (this : QuadTree) : nat := Z.to_nat (Z.log2 (_width this)).

(** [QuadTree::subdivide].  The [None] branch is never taken
    (see [subdivide_fuel_enough]). *)
Definition subdivide (this : QuadTree) : M QuadTree :=
  fun s => match subdivide_fuel (depth_bound this) this s with
           | Some r => r
           | None => (this, s)
           end.

(** The first two statements of [main], for any root region:
    [root = new QuadTree(pos, width, height); root->subdivide();]. *)
Definition build (pos : Point) (width height : Z) : M QuadTree :=
  root <- new_QuadTree pos width height ;;
  subdivide root.

(** [main] builds the tree of the region at (0,0) of size 100x100 in the
    initial state of the process. *)
Definition main_tree : QuadTree := fst (build (mkPoint 0 0) 100 100 initial_state).

(** A smaller example: the 20x20 region, one level of subdivision. *)
Definition small_tree : QuadTree := fst (build (mkPoint 0 0) 20 20 initial_state).

(** ** Reading a tree *)

Definition pointee (p : option QuadTree) : list QuadTree :=
  match p with Some c => [c] | None => [] end.

(** The nodes the four child pointers of [this] own, in the order
    north-west, north-east, south-west, south-east. *)
Definition children (this : QuadTree) : list QuadTree :=
  pointee (_northWest this) ++ pointee (_northEast this)
  ++ pointee (_southWest this) ++ pointee (_southEast this).

Definition child_count (this : QuadTree) : nat := length (children this).

(** The leaf test of [printTree] and [toDottyRecursive]:
    [_northWest == nullptr]. *)
Definition isLeaf (this : QuadTree) : bool := is_null (_northWest this).

(** All nodes of a tree in depth-first preorder, north-west first. *)
Fixpoint nodes (this : QuadTree) : list QuadTree :=
  this ::
    match _northWest this with Some c => nodes c | None => [] end
    ++ match _northEast this with Some c => nodes c | None => [] end
    ++ match _southWest this with Some c => nodes c | None => [] end
    ++ match _southEast this with Some c => nodes c | None => [] end.

(** The proper descendants of a node in the order in which [subdivide]
    runs their constructors: the four children first, then what the
    recursive calls on the children construct, child by child. *)
Fixpoint descendants (this : QuadTree) : list QuadTree :=
  children this
    ++ match _northWest this with Some c => descendants c | None => [] end
    ++ match _northEast this with Some c => descendants c | None => [] end
    ++ match _southWest this with Some c => descendants c | None => [] end
    ++ match _southEast this with Some c => descendants c | None => [] end.

Definition construction_order (this : QuadTree) : list QuadTree :=
  this :: descendants this.

(** ** [toDotty] *)

Definition dquote : string := String "034"%char EmptyString.

(** The node declaration [toDottyRecursive] writes first.  In the C++
    literals a doubled backslash is one backslash character and
    [\n] is the line feed. *)
Definition node_declaration (this : QuadTree) : string :=
  ("  node_" ++ Int.to_string (_id this) ++ " [label=" ++ dquote
   ++ "ID: " ++ Int.to_string (_id this) ++ "\n"
   ++ "Pos: " ++ Point_toString (_pos this) ++ "\n"
   ++ "Size: " ++ Int.to_string (_width this) ++ "x" ++ Int.to_string (_height this)
   ++ (if is_null (_northWest this)
       then "\n(Leaf)" ++ dquote ++ ", fillcolor=lightgreen];" ++ endl
       else "\n(Internal Node)" ++ dquote ++ "];" ++ endl))%string.

(** The edge declaration written for a non-null child pointer. *)
Definition edge_declaration (this child : QuadTree) (label : string) : string :=
  ("  node_" ++ Int.to_string (_id this) ++ " -> node_" ++ Int.to_string (_id child)
   ++ " [label=" ++ dquote ++ label ++ dquote ++ "];" ++ endl)%string.

(** [QuadTree::toDottyRecursive]: the text the call appends to [ss]. *)
Fixpoint toDottyRecursive (this : QuadTree) : string :=
  (node_declaration this
   ++ match _northWest this with
      | Some c => edge_declaration this c "NW" ++ toDottyRecursive c
      | None => ""
      end
   ++ match _northEast this with
      | Some c => edge_declaration this c "NE" ++ toDottyRecursive c
      | None => ""
      end
   ++ match _southWest this with
      | Some c => edge_declaration this c "SW" ++ toDottyRecursive c
      | None => ""
      end
   ++ match _southEast this with
      | Some c => edge_declaration this c "SE" ++ toDottyRecursive c
      | None => ""
      end)%string.

(** [QuadTree::toDotty]. *)
Definition toDotty (this : QuadTree) : string :=
  ("digraph QuadTree {" ++ endl
   ++ "  node [shape=box, style=filled, fillcolor=lightblue];" ++ endl
   ++ toDottyRecursive this
   ++ "}" ++ endl)%string.

(** ** Lines of a text *)

Definition newline : ascii := "010"%char.

(** The lines of [text], each without its line feed; [cur] is the part
    of the current line already read. *)
Fixpoint lines_from (cur : string) (text : string) : list string :=
  match text with
  | EmptyString => match cur with EmptyString => [] | _ => [cur] end
  | String c rest =>
      if Ascii.eqb c newline then cur :: lines_from EmptyString rest
      else lines_from (cur ++ String c EmptyString)%string rest
  end.

Definition lines (text : string) : list string := lines_from EmptyString text.

(** [true] when [pat] occurs in [text]. *)
Fixpoint occurs (pat text : string) : bool :=
  String.prefix pat text
  || match text with
     | EmptyString => false
     | String _ rest => occurs pat rest
     end.

(** A line of the export is an edge declaration when it has an arrow. *)
Definition is_edge_line (line : string) : bool := occurs "->" line.

Definition edge_lines (text : string) : list string :=
  filter (fun l => is_edge_line l = true) (lines text).

(** * Vocabulary of the properties *)

(** ** Induction over a tree through its four pointers *)

Section QuadTree_induction.
Variable P : QuadTree -> Prop.

Definition holds_at (p : option QuadTree) : Prop :=
  match p with Some c => P c | None => True end.

Hypothesis step : forall id pos w h nw ne sw se,
  holds_at nw -> holds_at ne -> holds_at sw -> holds_at se ->
  P (mkQuadTree id pos w h nw ne sw se).

Fixpoint QuadTree_ind (this : QuadTree) : P this :=
  match this with
  | mkQuadTree id pos w h nw ne sw se =>
      let sub (p : option QuadTree) : holds_at p :=
        match p with Some c => QuadTree_ind c | None => I end in
      step id pos w h nw ne sw se (sub nw) (sub ne) (sub sw) (sub se)
  end.
End QuadTree_induction.

(** A node none of whose four pointers is set. *)
Definition no_children (this : QuadTree) : Prop :=
  _northWest this = None /\ _northEast this = None
  /\ _southWest this = None /\ _southEast this = None.

(** ** The runs of [subdivide] as a relation

    [subdivides this s this' s'] : started on [this] in state [s], the call
    leaves the node as [this'] and the state as [s'].  One rule per branch
    of the C++ body. *)
Inductive subdivides : QuadTree -> State -> QuadTree -> State -> Prop :=
| subdivides_stop this s :
    cannot_subdivide this = true ->
    subdivides this s this (snd (write_cout (diagnostic this) s))
| subdivides_split this s nw ne sw se s1 s2 s3 s4 nw' ne' sw' se' s5 s6 s7 s8 :
    cannot_subdivide this = false ->
    new_QuadTree (mkPoint (x (_pos this)) (y (_pos this)))
      (Int.div (_width this) 2) (Int.div (_height this) 2) s = (nw, s1) ->
    new_QuadTree (mkPoint (Int.add (x (_pos this)) (Int.div (_width this) 2)) (y (_pos this)))
      (Int.div (_width this) 2) (Int.div (_height this) 2) s1 = (ne, s2) ->
    new_QuadTree (mkPoint (x (_pos this)) (Int.add (y (_pos this)) (Int.div (_height this) 2)))
      (Int.div (_width this) 2) (Int.div (_height this) 2) s2 = (sw, s3) ->
    new_QuadTree (mkPoint (Int.add (x (_pos this)) (Int.div (_width this) 2))
                          (Int.add (y (_pos this)) (Int.div (_height this) 2)))
      (Int.div (_width this) 2) (Int.div (_height this) 2) s3 = (se, s4) ->
    subdivides nw s4 nw' s5 ->
    subdivides ne s5 ne' s6 ->
    subdivides sw s6 sw' s7 ->
    subdivides se s7 se' s8 ->
    subdivides this s (set_children this nw' ne' sw' se') s8.

(** ** The shape of a subdivided tree *)

(** The four quadrants of [this] as lines 76 to 83 compute them. *)
Definition quartered (this : QuadTree) : Prop :=
  let childWidth := Int.div (_width this) 2 in
  let childHeight := Int.div (_height this) 2 in
  exists nw ne sw se,
    _northWest this = Some nw /\ _northEast this = Some ne
    /\ _southWest this = Some sw /\ _southEast this = Some se
    /\ (_width nw = childWidth /\ _height nw = childHeight
        /\ _pos nw = _pos this)
    /\ (_width ne = childWidth /\ _height ne = childHeight
        /\ _pos ne = mkPoint (Int.add (x (_pos this)) childWidth) (y (_pos this)))
    /\ (_width sw = childWidth /\ _height sw = childHeight
        /\ _pos sw = mkPoint (x (_pos this)) (Int.add (y (_pos this)) childHeight))
    /\ (_width se = childWidth /\ _height se = childHeight
        /\ _pos se = mkPoint (Int.add (x (_pos this)) childWidth)
                             (Int.add (y (_pos this)) childHeight)).

(** A node is either a childless node at the size floor or a node above
    it with its four quadrants. *)
Definition shaped (this : QuadTree) : Prop :=
  (no_children this /\ (_width this <= 15 \/ _height this <= 15))
  \/ (15 < _width this /\ 15 < _height this /\ quartered this).

(** No child or four. *)
Definition full_or_none (this : QuadTree) : Prop :=
  child_count this = 0%nat \/ child_count this = 4%nat.

(** ** Identities and the counter *)

(** [counted s s'] : between [s] and [s'] some [k] constructors ran; as
    long as the counter stays within [int], they received the next [k]
    values of the counter in order, and the counter advanced by [k]. *)
Definition counted (s s' : State) : Prop :=
  exists k : nat,
    length (created s') = (length (created s) + k)%nat
    /\ (Int.INT_MIN <= nextId s -> nextId s + Z.of_nat k <= Int.INT_MAX ->
        created s' = created s ++ seqZ (nextId s) (Z.of_nat k)
        /\ nextId s' = nextId s + Z.of_nat k).

(** ** Process runs

    A run of the process is any sequence of constructor calls and
    [subdivide] calls from the initial state; nothing else touches
    [nextId]. *)
Inductive step : State -> State -> Prop :=
| step_new pos w h s : step s (snd (new_QuadTree pos w h s))
| step_subdivide this s : step s (snd (subdivide this s)).

Inductive reachable : State -> Prop :=
| reachable_initial : reachable initial_state
| reachable_step s s' : reachable s -> step s s' -> reachable s'.

(** ** The trees the public interface hands out *)

Inductive produced : QuadTree -> Prop :=
| produced_new pos w h s : produced (fst (new_QuadTree pos w h s))
| produced_subdivide this s : produced this -> produced (fst (subdivide this s))
| produced_child this c : produced this -> In c (children this) -> produced c.

(** ** The export, line by line *)

Local Open Scope string_scope.

(** A text with no line feed in it. *)
Fixpoint one_line (text : string) : bool :=
  match text with
  | EmptyString => true
  | String c rest => negb (Ascii.eqb c newline) && one_line rest
  end.

(** The two kinds of lines [toDottyRecursive] writes, without their line
    feed. *)
Definition node_line (this : QuadTree) : string :=
  "  node_" ++ Int.to_string (_id this) ++ " [label=" ++ dquote
  ++ "ID: " ++ Int.to_string (_id this) ++ "\n"
  ++ "Pos: " ++ Point_toString (_pos this) ++ "\n"
  ++ "Size: " ++ Int.to_string (_width this) ++ "x" ++ Int.to_string (_height this)
  ++ (if is_null (_northWest this)
      then "\n(Leaf)" ++ dquote ++ ", fillcolor=lightgreen];"
      else "\n(Internal Node)" ++ dquote ++ "];").

Definition edge_line (this child : QuadTree) (label : string) : string :=
  "  node_" ++ Int.to_string (_id this) ++ " -> node_" ++ Int.to_string (_id child)
  ++ " [label=" ++ dquote ++ label ++ dquote ++ "];".

(** The export of a subtree, line by line. *)
Fixpoint dotty_lines (this : QuadTree) : list string :=
  (node_line this ::
     match _northWest this with
     | Some c => edge_line this c "NW" :: dotty_lines c
     | None => []
     end
     ++ match _northEast this with
        | Some c => edge_line this c "NE" :: dotty_lines c
        | None => []
        end
     ++ match _southWest this with
        | Some c => edge_line this c "SW" :: dotty_lines c
        | None => []
        end
     ++ match _southEast this with
        | Some c => edge_line this c "SE" :: dotty_lines c
        | None => []
        end)%list.

Local Close Scope string_scope.

(** [true] when the lines of [block] stand at the head of [text]. *)
Fixpoint starts_with (block text : list string) : bool :=
  match block, text with
  | [], _ => true
  | _ :: _, [] => false
  | b :: block', l :: text' => String.eqb b l && starts_with block' text'
  end.

(** [true] when the lines of [block] stand somewhere in [text], one
    after the other. *)
Fixpoint contains_block (block text : list string) : bool :=
  starts_with block text
  || match text with
     | [] => false
     | _ :: text' => contains_block block text'
     end.

(** * The rest of the class *)

(** ** [printTree] *)

(** What stops a call short of its return: a null child pointer followed
    (undefined in C++, the embedding stops there), or a [std::string]
    asked for more characters than it can hold. *)
Inductive fault : Type := null_pointer | length_error.

(** [n] blanks. *)
Fixpoint spaces (n : nat) : string :=
  match n with
  | O => EmptyString
  | S n' => String " "%char (spaces n')
  end.

(** [std::string indent(depth * 4, ' ')].  The product is an [int]; as
    the count of the constructor it is converted to [size_t], so a
    negative product asks for more than [max_size()] characters and the
    constructor throws [std::length_error]. *)
Definition indentation (depth : Z) : fault + string :=
  let count := Int.wrap (depth * 4) in
  if count <? 0 then inl length_error else inr (spaces (Z.to_nat count)).

(** The first output statement of [printTree], up to the size. *)
Definition print_head (this : QuadTree) (indent : string) : string :=
  (indent ++ "Node ID: " ++ Int.to_string (_id this)
   ++ ", Pos: " ++ Point_toString (_pos this)
   ++ ", Size: " ++ Int.to_string (_width this) ++ "x" ++ Int.to_string (_height this))%string.

(** [p->printTree(depth)] through a child pointer [p]. *)
Definition through (p : option QuadTree) (call : QuadTree -> State -> fault + State)
    (s : State) : fault + State :=
  match p with
  | None => inl null_pointer
  | Some c => call c s
  end.

(** Sequencing of calls that may stop short. *)
Definition and_then (r : fault + State) (k : State -> fault + State) : fault + State :=
  match r with
  | inl f => inl f
  | inr s => k s
  end.

(** [QuadTree::printTree].  Only [_northWest] is tested; the other three
    pointers are followed as they are. *)
Fixpoint printTree (this : QuadTree) (depth : Z) (s : State) : fault + State :=
  match indentation depth with
  | inl f => inl f
  | inr indent =>
      let s1 := snd (write_cout (print_head this indent) s) in
      match _northWest this with
      | None => inr (snd (write_cout (" (Leaf)" ++ endl)%string s1))
      | Some nw =>
          let s2 := snd (write_cout (" (Internal Node)" ++ endl)%string s1) in
          and_then (printTree nw (Int.add depth 1) s2) (fun s3 =>
          and_then (through (_northEast this) (fun c => printTree c (Int.add depth 1)) s3) (fun s4 =>
          and_then (through (_southWest this) (fun c => printTree c (Int.add depth 1)) s4) (fun s5 =>
          through (_southEast this) (fun c => printTree c (Int.add depth 1)) s5)))
      end
  end.

(** The nodes of a tree in depth-first preorder, each with its depth when
    the root is at [depth]. *)
Fixpoint nodes_at (this : QuadTree) (depth : Z) : list (QuadTree * Z) :=
  (this, depth) ::
    match _northWest this with Some c => nodes_at c (depth + 1) | None => [] end
    ++ match _northEast this with Some c => nodes_at c (depth + 1) | None => [] end
    ++ match _southWest this with Some c => nodes_at c (depth + 1) | None => [] end
    ++ match _southEast this with Some c => nodes_at c (depth + 1) | None => [] end.

(** The number of levels below a node. *)
Fixpoint height (this : QuadTree) : nat :=
  let below (p : option QuadTree) : nat :=
    match p with Some c => S (height c) | None => O end in
  Nat.max (below (_northWest this))
    (Nat.max (below (_northEast this))
       (Nat.max (below (_southWest this)) (below (_southEast this)))).

(** The line [printTree] writes for a node at depth [depth], without its
    line feed. *)
Definition print_row (row : QuadTree * Z) : string :=
  (print_head (fst row) (spaces (Z.to_nat (snd row * 4)))
   ++ (if is_null (_northWest (fst row)) then " (Leaf)" else " (Internal Node)"))%string.

(** The text of rows of output, each with its line feed. *)
Definition rows_text (rows : list (QuadTree * Z)) : string :=
  foldr (fun row text => (print_row row ++ endl ++ text)%string) EmptyString rows.

(** ** More vocabulary *)

(** The leaves of a tree, by the leaf test of the code, in depth-first
    preorder. *)
Definition leaves (this : QuadTree) : list QuadTree :=
  List.filter isLeaf (nodes this).

(** The texts of a list, one after the other. *)
Definition concat_text (texts : list string) : string :=
  foldr String.append EmptyString texts.

(** How many times a [width] x [height] region is halved before the
    guard of [subdivide] stops, counted with [fuel]. *)
Fixpoint levels_fuel (fuel : nat) (width height : Z) : nat :=
  match fuel with
  | O => O
  | S fuel' =>
      if (width <=? 15) || (height <=? 15) then O
      else S (levels_fuel fuel' (Int.div width 2) (Int.div height 2))
  end.

Definition levels (width height : Z) : nat :=
  levels_fuel (Z.to_nat (Z.log2 width)) width height.

(** A tree all of whose leaves are [d] levels down, every node above
    them having its four children. *)
Fixpoint perfect (d : nat) (this : QuadTree) : Prop :=
  match d with
  | O => no_children this
  | S d' =>
      exists nw ne sw se,
        _northWest this = Some nw /\ _northEast this = Some ne
        /\ _southWest this = Some sw /\ _southEast this = Some se
        /\ perfect d' nw /\ perfect d' ne /\ perfect d' sw /\ perfect d' se
  end.

(** ** Regions *)

(** The first column to the right of the region of a node, and the first
    row below it. *)
Definition right_edge (this : QuadTree) : Z := x (_pos this) + _width this.

Definition bottom_edge (this : QuadTree) : Z := y (_pos this) + _height this.

(** The corners of the region are [int] values. *)
Definition representable (this : QuadTree) : Prop :=
  Int.in_range (x (_pos this)) /\ Int.in_range (y (_pos this))
  /\ Int.in_range (right_edge this) /\ Int.in_range (bottom_edge this).

(** The region of [this] lies within the region of [outer]. *)
Definition inside (this outer : QuadTree) : Prop :=
  x (_pos outer) <= x (_pos this) /\ right_edge this <= right_edge outer
  /\ y (_pos outer) <= y (_pos this) /\ bottom_edge this <= bottom_edge outer.

(** The regions of [a] and [b] share no cell. *)
Definition regions_disjoint (a b : QuadTree) : Prop :=
  right_edge a <= x (_pos b) \/ right_edge b <= x (_pos a)
  \/ bottom_edge a <= y (_pos b) \/ bottom_edge b <= y (_pos a).

(** ** Characters and edges of the export *)

(** A text in which the character [ch] does not occur. *)
Fixpoint avoids (ch : ascii) (text : string) : bool :=
  match text with
  | EmptyString => true
  | String c rest => negb (Ascii.eqb c ch) && avoids ch rest
  end.

(** The parent, the child and the label of every edge [toDottyRecursive]
    writes, in the order in which it writes them. *)
Fixpoint edges (this : QuadTree) : list (QuadTree * QuadTree * string) :=
  match _northWest this with
  | Some c => (this, c, "NW"%string) :: edges c
  | None => []
  end
  ++ match _northEast this with
     | Some c => (this, c, "NE"%string) :: edges c
     | None => []
     end
  ++ match _southWest this with
     | Some c => (this, c, "SW"%string) :: edges c
     | None => []
     end
  ++ match _southEast this with
     | Some c => (this, c, "SE"%string) :: edges c
     | None => []
     end.

(** The line of an edge. *)
Definition edge_row (e : QuadTree * QuadTree * string) : string :=
  edge_line (fst (fst e)) (snd (fst e)) (snd e).

(** * Properties *)

(** ** Machine integers *)

Lemma wrap_in_range z : Int.in_range z -> Int.wrap z = z.
Proof.
  unfold Int.in_range, Int.INT_MIN, Int.INT_MAX, Int.wrap. intros Hz.
  rewrite Z.mod_small by lia. lia.
Qed.

Lemma wrap_range z : Int.in_range (Int.wrap z).
Proof.
  unfold Int.in_range, Int.INT_MIN, Int.INT_MAX, Int.wrap.
  pose proof (Z.mod_pos_bound (z + 2 ^ 31) (2 ^ 32) ltac:(lia)). lia.
Qed.

Lemma add_exact a b : Int.in_range (a + b) -> Int.add a b = a + b.
Proof. apply wrap_in_range. Qed.

(** Halving a dimension that passed the guard: the quotient is
    non-negative, strictly smaller, and one bit shorter. *)
Lemma div_2_lt w : 15 < w -> 0 <= Int.div w 2 < w.
Proof.
  intros Hw. unfold Int.div. rewrite Z.quot_div_nonneg by lia.
  split; [apply Z.div_pos; lia | apply Z.div_lt; lia].
Qed.

Lemma log2_div_2 w : 15 < w -> Z.log2 (Int.div w 2) = Z.log2 w - 1.
Proof.
  intros Hw. unfold Int.div. rewrite Z.quot_div_nonneg by lia.
  change 2 with (2 ^ 1) at 1. rewrite <- Z.shiftr_div_pow2 by lia.
  rewrite Z.log2_shiftr by lia.
  assert (4 <= Z.log2 w).
  { change 4 with (Z.log2 16). apply Z.log2_le_mono. lia. }
  lia.
Qed.

(** ** The constructor *)

Lemma new_QuadTree_eq pos w h s :
  new_QuadTree pos w h s =
  (leaf (nextId s) pos w h,
   mkState (Int.add (nextId s) 1) (cout s) (created s ++ [nextId s])).
Proof. reflexivity. Qed.

Lemma new_QuadTree_inv pos w h s t s1 :
  new_QuadTree pos w h s = (t, s1) ->
  t = leaf (nextId s) pos w h
  /\ s1 = mkState (Int.add (nextId s) 1) (cout s) (created s ++ [nextId s]).
Proof. rewrite new_QuadTree_eq. by intros [= <- <-]. Qed.

Lemma leaf_no_children id pos w h : no_children (leaf id pos w h).
Proof. repeat split. Qed.

(** ** Fuel *)

Lemma cannot_subdivide_false this :
  cannot_subdivide this = false ->
  15 < _width this /\ 15 < _height this /\ _northWest this = None.
Proof.
  unfold cannot_subdivide. intros H.
  apply orb_false_iff in H as [H Hnw]. apply orb_false_iff in H as [Hw Hh].
  apply Z.leb_gt in Hw, Hh. destruct (_northWest this); [discriminate|]. auto.
Qed.

Lemma depth_bound_child this id pos h :
  cannot_subdivide this = false ->
  S (depth_bound (leaf id pos (Int.div (_width this) 2) h)) = depth_bound this.
Proof.
  intros Hg. apply cannot_subdivide_false in Hg as (Hw & _ & _).
  unfold depth_bound. cbn [_width leaf]. rewrite log2_div_2 by lia.
  assert (4 <= Z.log2 (_width this)).
  { change 4 with (Z.log2 16). apply Z.log2_le_mono. lia. }
  lia.
Qed.

Lemma bindF_stable {A B} (m1 m2 : F A) (k1 k2 : A -> F B) s :
  m1 s = m2 s ->
  (exists r, m1 s = Some r) ->
  (forall a s', m1 s = Some (a, s') ->
     k1 a s' = k2 a s' /\ exists r, k1 a s' = Some r) ->
  bindF m1 k1 s = bindF m2 k2 s /\ exists r, bindF m1 k1 s = Some r.
Proof.
  intros Hm [[a s'] Hr] Hk. unfold bindF. rewrite <- Hm, Hr. auto.
Qed.

Lemma lift_new_inv pos w h s a s' :
  lift (new_QuadTree pos w h) s = Some (a, s') ->
  a = leaf (nextId s) pos w h.
Proof. unfold lift. rewrite new_QuadTree_eq. congruence. Qed.

(** With at least [depth_bound] units of fuel the recursion returns, and
    the result does not depend on how much more fuel there is. *)
Lemma subdivide_fuel_stable fuel1 : forall fuel2 this s,
  (depth_bound this <= fuel1)%nat -> (depth_bound this <= fuel2)%nat ->
  subdivide_fuel fuel1 this s = subdivide_fuel fuel2 this s
  /\ exists r, subdivide_fuel fuel1 this s = Some r.
Proof.
  induction fuel1 as [|fuel1 IH]; intros fuel2 this s H1 H2.
  - destruct fuel2; cbn; destruct (cannot_subdivide this) eqn:Hg; eauto.
    all: pose proof (depth_bound_child this 0 (mkPoint 0 0) 0 Hg); lia.
  - destruct fuel2 as [|fuel2]; cbn [subdivide_fuel];
      destruct (cannot_subdivide this) eqn:Hg; eauto.
    { pose proof (depth_bound_child this 0 (mkPoint 0 0) 0 Hg); lia. }
    do 4 (apply bindF_stable; [reflexivity | unfold lift; eauto |];
          intros ? ? ->%lift_new_inv).
    do 4 (apply bindF_stable;
          [ apply IH | eapply (IH fuel2) |];
          try (match goal with |- (depth_bound (leaf ?i ?p _ ?h) <= _)%nat =>
                 pose proof (depth_bound_child this i p h Hg); lia end);
          intros ? ? _).
    unfold retF. eauto.
Qed.

Lemma subdivide_fuel_enough fuel this s :
  (depth_bound this <= fuel)%nat ->
  subdivide_fuel fuel this s = Some (subdivide this s).
Proof.
  intros Hf. unfold subdivide.
  destruct (subdivide_fuel_stable fuel (depth_bound this) this s Hf (Nat.le_refl _))
    as [<- [r ->]].
  reflexivity.
Qed.

Lemma bindF_subdivide_enough {B} fuel this (k : QuadTree -> F B) s :
  (depth_bound this <= fuel)%nat ->
  bindF (subdivide_fuel fuel this) k s = (let (a, s') := subdivide this s in k a s').
Proof. intros Hf. unfold bindF. by rewrite subdivide_fuel_enough. Qed.

(** [subdivide] satisfies the recursion equation of the C++ body. *)
Lemma subdivide_unfold this s :
  subdivide this s =
  (if cannot_subdivide this then
     _ <- write_cout (diagnostic this) ;; ret this
   else
     let childWidth := Int.div (_width this) 2 in
     let childHeight := Int.div (_height this) 2 in
     nw <- new_QuadTree (mkPoint (x (_pos this)) (y (_pos this)))
                        childWidth childHeight ;;
     ne <- new_QuadTree (mkPoint (Int.add (x (_pos this)) childWidth) (y (_pos this)))
                        childWidth childHeight ;;
     sw <- new_QuadTree (mkPoint (x (_pos this)) (Int.add (y (_pos this)) childHeight))
                        childWidth childHeight ;;
     se <- new_QuadTree (mkPoint (Int.add (x (_pos this)) childWidth)
                                 (Int.add (y (_pos this)) childHeight))
                        childWidth childHeight ;;
     nw' <- subdivide nw ;;
     ne' <- subdivide ne ;;
     sw' <- subdivide sw ;;
     se' <- subdivide se ;;
     ret (set_children this nw' ne' sw' se')) s.
Proof.
  pose proof (subdivide_fuel_enough (depth_bound this) this s (Nat.le_refl _)) as E.
  destruct (cannot_subdivide this) eqn:Hg.
  - destruct (depth_bound this); cbn [subdivide_fuel] in E; rewrite Hg in E;
      unfold lift in E; congruence.
  - rewrite <- (depth_bound_child this 0 (mkPoint 0 0) 0 Hg) in E.
    cbn [subdivide_fuel] in E. rewrite Hg in E.
    cbv zeta. unfold bind at 1 2 3 4. unfold bindF at 1 2 3 4 in E.
    unfold lift in E. rewrite !new_QuadTree_eq in *. cbn [nextId cout created] in *.
    set (res := subdivide this s) in *. clearbody res.
    do 4 (rewrite bindF_subdivide_enough in E by reflexivity;
          unfold bind at 1;
          match goal with |- context [subdivide ?t ?st] =>
            let r := fresh "r" in
            set (r := subdivide t st) in *; clearbody r; destruct r end).
    unfold retF in E. unfold ret. congruence.
Qed.

(** ** Every call is a run of the relation *)

Lemma bindF_Some {A B} (m : F A) (k : A -> F B) s r :
  bindF m k s = Some r -> exists a s', m s = Some (a, s') /\ k a s' = Some r.
Proof. unfold bindF. destruct (m s) as [[a s']|]; [eauto | discriminate]. Qed.

Lemma subdivide_fuel_subdivides fuel : forall this s this' s',
  subdivide_fuel fuel this s = Some (this', s') -> subdivides this s this' s'.
Proof.
  induction fuel as [|fuel IH]; intros this s this' s' E;
    cbn [subdivide_fuel] in E; destruct (cannot_subdivide this) eqn:Hg;
    try discriminate;
    try (injection E as <- <-; exact (subdivides_stop this s Hg)).
  do 4 (apply bindF_Some in E as (? & ? & [= ?] & E)).
  do 4 (apply bindF_Some in E as (? & ? & ?%IH & E)).
  injection E as <- <-.
  subst.
  eapply subdivides_split;
    [exact Hg | reflexivity | reflexivity | reflexivity | reflexivity | eassumption ..].
Qed.

Lemma subdivide_subdivides this s :
  subdivides this s (fst (subdivide this s)) (snd (subdivide this s)).
Proof.
  apply (subdivide_fuel_subdivides (depth_bound this)).
  rewrite subdivide_fuel_enough by lia. by destruct (subdivide this s).
Qed.

Lemma build_subdivides pos w h s :
  subdivides (leaf (nextId s) pos w h) (snd (new_QuadTree pos w h s))
             (fst (build pos w h s)) (snd (build pos w h s)).
Proof.
  unfold build, bind. rewrite new_QuadTree_eq. cbn [snd].
  apply subdivide_subdivides.
Qed.

(** Induction on a run, with the names the proofs below use, and the
    reading of the four constructor calls of the splitting rule. *)
Ltac induction_on_run :=
  induction 1 as [this s Hg
                 |this s nw ne sw se s1 s2 s3 s4 nw' ne' sw' se' s5 s6 s7 s8
                    Hg Enw Ene Esw Ese Hnw IHnw Hne IHne Hsw IHsw Hse IHse].

Ltac fresh_children :=
  match goal with
  | Enw : new_QuadTree _ _ _ _ = (_, _), Ene : new_QuadTree _ _ _ _ = (_, _),
    Esw : new_QuadTree _ _ _ _ = (_, _), Ese : new_QuadTree _ _ _ _ = (_, _) |- _ =>
      apply new_QuadTree_inv in Ese as [-> ->];
      apply new_QuadTree_inv in Esw as [-> ->];
      apply new_QuadTree_inv in Ene as [-> ->];
      apply new_QuadTree_inv in Enw as [-> ->]
  end.

(** ** What a run leaves of the node it was called on *)

Lemma subdivides_root this s this' s' :
  subdivides this s this' s' ->
  _id this' = _id this /\ _pos this' = _pos this
  /\ _width this' = _width this /\ _height this' = _height this.
Proof. destruct 1; auto. Qed.

Lemma nodes_set_children this nw ne sw se :
  nodes (set_children this nw ne sw se) =
  set_children this nw ne sw se :: nodes nw ++ nodes ne ++ nodes sw ++ nodes se.
Proof. reflexivity. Qed.

Lemma nodes_no_children this : no_children this -> nodes this = [this].
Proof. destruct this; intros (H1 & H2 & H3 & H4); cbn in *; by subst. Qed.

Lemma descendants_set_children this nw ne sw se :
  descendants (set_children this nw ne sw se) =
  [nw; ne; sw; se] ++ descendants nw ++ descendants ne ++ descendants sw ++ descendants se.
Proof. reflexivity. Qed.

Lemma descendants_no_children this : no_children this -> descendants this = [].
Proof. destruct this; intros (H1 & H2 & H3 & H4); cbn in *; by subst. Qed.

(** ** The shape of a subdivided tree *)

Lemma subdivides_shaped this s this' s' :
  subdivides this s this' s' -> no_children this -> Forall shaped (nodes this').
Proof.
  induction_on_run; intros Hfresh.
  - rewrite nodes_no_children by done. constructor; [|constructor].
    left. split; [done|].
    unfold cannot_subdivide in Hg. destruct Hfresh as [Hnw _]. rewrite Hnw in Hg.
    cbn [is_null negb] in Hg. rewrite orb_false_r in Hg.
    apply orb_true_iff in Hg as [?%Z.leb_le | ?%Z.leb_le]; auto.
  - fresh_children.
    rewrite nodes_set_children. constructor.
    + right. apply cannot_subdivide_false in Hg as (Hw & Hh & _).
      split; [done|]. split; [done|].
      apply subdivides_root in Hnw as (_ & ? & ? & ?), Hne as (_ & ? & ? & ?),
        Hsw as (_ & ? & ? & ?), Hse as (_ & ? & ? & ?).
      exists nw', ne', sw', se'. cbn [set_children leaf _northWest _northEast _southWest
        _southEast _width _height _pos] in *.
      repeat split; try done. by destruct (_pos this).
    + rewrite !Forall_app. auto using leaf_no_children.
Qed.

(** Counting no child is having no pointer set. *)
Lemma child_count_0 this : child_count this = 0%nat <-> no_children this.
Proof.
  unfold child_count, children, no_children.
  destruct this as [? ? ? ? [?|] [?|] [?|] [?|]]; cbn; split; intros H;
    try discriminate; try done; destruct H as (? & ? & ? & ?); discriminate.
Qed.

(** Re-running [subdivide] keeps the full-or-none shape of every node. *)
Lemma subdivides_full_or_none this s this' s' :
  subdivides this s this' s' ->
  Forall full_or_none (nodes this) -> Forall full_or_none (nodes this').
Proof.
  induction_on_run; intros Hall; [done|].
  fresh_children.
  rewrite nodes_set_children. constructor; [by right|].
  assert (forall i p w h, Forall full_or_none (nodes (leaf i p w h))) as Hleaf.
  { intros. constructor; [by left | constructor]. }
  rewrite !Forall_app. auto.
Qed.

(** Membership in [nodes] is closed under taking subtrees. *)
Lemma nodes_self this : In this (nodes this).
Proof. destruct this; cbn; auto. Qed.

Lemma nodes_trans : forall this c n, In c (nodes this) -> In n (nodes c) -> In n (nodes this).
Proof.
  induction this as [id pos w h nw ne sw se Hnw Hne Hsw Hse] using QuadTree_ind.
  intros c n Hc Hn. cbn [nodes _northWest _northEast _southWest _southEast] in *.
  destruct Hc as [<-|Hc]; [done|]. right.
  rewrite !in_app_iff in *.
  destruct nw, ne, sw, se; cbn [holds_at] in *; intuition eauto.
Qed.

Lemma children_nodes this c : In c (children this) -> In c (nodes this).
Proof.
  destruct this as [id pos w h nw ne sw se]. unfold children.
  cbn [nodes _northWest _northEast _southWest _southEast].
  rewrite !in_app_iff. intros H. right. rewrite !in_app_iff.
  destruct nw, ne, sw, se; cbn in H; intuition (subst; auto using nodes_self).
Qed.

Lemma produced_full_or_none this :
  produced this -> Forall full_or_none (nodes this).
Proof.
  induction 1 as [pos w h s|this s _ IH|this c _ IH Hc].
  - rewrite new_QuadTree_eq. cbn. constructor; [by left|constructor].
  - eapply subdivides_full_or_none; [apply subdivide_subdivides|done].
  - apply List.Forall_forall. intros n Hn.
    rewrite List.Forall_forall in IH. apply IH.
    eapply nodes_trans; [|exact Hn]. by apply children_nodes.
Qed.

Lemma nodes_construction_order : forall this,
  Permutation (nodes this) (construction_order this).
Proof.
  induction this as [id pos w h nw ne sw se Hnw Hne Hsw Hse] using QuadTree_ind.
  unfold construction_order in *.
  cbn [nodes descendants children _northWest _northEast _southWest _southEast].
  constructor.
  assert (forall p, holds_at (fun t => Permutation (nodes t) (t :: descendants t)) p ->
            Permutation (match p with Some c => nodes c | None => [] end)
                        (pointee p ++ match p with Some c => descendants c | None => [] end))
    as Hp by (intros [c|]; cbn; auto).
  apply Hp in Hnw, Hne, Hsw, Hse. rewrite Hnw, Hne, Hsw, Hse.
  solve_Permutation.
Qed.

(** ** The guard branch *)

Lemma subdivide_stop this s :
  cannot_subdivide this = true ->
  subdivide this s = (this, mkState (nextId s) (cout s ++ diagnostic this)%string (created s)).
Proof. intros Hg. rewrite subdivide_unfold, Hg. reflexivity. Qed.

Lemma isLeaf_false_cannot_subdivide this :
  isLeaf this = false -> cannot_subdivide this = true.
Proof.
  unfold isLeaf, cannot_subdivide. intros ->. cbn. apply orb_true_r.
Qed.

(** After any call, the guard holds: a second call takes the guard branch. *)
Lemma cannot_subdivide_after this s :
  cannot_subdivide (fst (subdivide this s)) = true.
Proof.
  rewrite subdivide_unfold. destruct (cannot_subdivide this) eqn:Hg; [done|].
  cbv zeta. unfold bind at 1 2 3 4. rewrite !new_QuadTree_eq.
  repeat (unfold bind at 1; match goal with |- context [subdivide ?t ?st] =>
            destruct (subdivide t st) end).
  unfold ret, cannot_subdivide. cbn. apply orb_true_r.
Qed.

(** ** Identities and the counter *)

Lemma counted_refl s : counted s s.
Proof.
  exists 0%nat. split; [lia|]. intros _ _. cbn. rewrite app_nil_r. split; [done|lia].
Qed.

Lemma counted_trans s1 s2 s3 : counted s1 s2 -> counted s2 s3 -> counted s1 s3.
Proof.
  intros (k1 & L1 & H1) (k2 & L2 & H2). exists (k1 + k2)%nat. split; [lia|].
  intros Hlo Hhi.
  destruct H1 as [E1 N1]; [lia..|]. destruct H2 as [E2 N2]; [lia..|].
  rewrite E2, E1, N1, N2, Nat2Z.inj_add, seqZ_app, <- app_assoc by lia.
  split; [done|lia].
Qed.

Lemma counted_new pos w h s : counted s (snd (new_QuadTree pos w h s)).
Proof.
  exists 1%nat. rewrite new_QuadTree_eq. cbn [snd created nextId]. split.
  - rewrite length_app. cbn. lia.
  - intros Hlo Hhi. split; [done|]. apply add_exact.
    unfold Int.in_range, Int.INT_MAX, Int.INT_MIN in *. lia.
Qed.

Lemma counted_write text s : counted s (snd (write_cout text s)).
Proof.
  exists 0%nat. cbn [snd write_cout created nextId]. split; [lia|].
  intros _ _. cbn. rewrite app_nil_r. split; [done|lia].
Qed.

Lemma subdivides_counted this s this' s' :
  subdivides this s this' s' -> counted s s'.
Proof.
  induction_on_run.
  - apply counted_write.
  - assert (forall pos w h s t s1, new_QuadTree pos w h s = (t, s1) -> counted s s1) as Hnew.
    { intros pos w h s0 t s0' E. pose proof (counted_new pos w h s0) as Hc. by rewrite E in Hc. }
    repeat (eapply counted_trans; [eapply Hnew; eassumption|]).
    repeat (eapply counted_trans; [eassumption|]). apply counted_refl.
Qed.

(** The identities recorded during a run are those of the nodes the run
    has added, in construction order. *)
Lemma subdivides_created this s this' s' :
  subdivides this s this' s' -> no_children this ->
  created s' = created s ++ map _id (descendants this').
Proof.
  induction_on_run; intros Hfresh.
  - rewrite descendants_no_children by done. cbn. by rewrite app_nil_r.
  - fresh_children.
    rewrite descendants_set_children, !map_app.
    rewrite IHse, IHsw, IHne, IHnw by apply leaf_no_children. cbn [map].
    apply subdivides_root in Hnw as (-> & _), Hne as (-> & _),
      Hsw as (-> & _), Hse as (-> & _).
    cbn [created nextId leaf _id map]. by rewrite <- !app_assoc.
Qed.

Lemma step_counted s s' : step s s' -> counted s s'.
Proof.
  destruct 1; [apply counted_new|].
  eapply subdivides_counted, subdivide_subdivides.
Qed.

Lemma reachable_counted s : reachable s -> counted initial_state s.
Proof.
  induction 1; [apply counted_refl|].
  eapply counted_trans; [eassumption|]. by apply step_counted.
Qed.

Lemma build_created pos w h s :
  created (snd (build pos w h s))
  = created s ++ map _id (construction_order (fst (build pos w h s))).
Proof.
  pose proof (build_subdivides pos w h s) as Hs.
  rewrite (subdivides_created _ _ _ _ Hs) by apply leaf_no_children.
  unfold construction_order. cbn [map].
  apply subdivides_root in Hs as (-> & _).
  rewrite new_QuadTree_eq. cbn [snd created leaf _id].
  by rewrite <- app_assoc.
Qed.

Lemma build_counted pos w h s : counted s (snd (build pos w h s)).
Proof.
  eapply counted_trans; [apply (counted_new pos w h)|].
  eapply subdivides_counted, build_subdivides.
Qed.

Lemma build_identities pos w h s :
  Int.INT_MIN <= nextId s ->
  nextId s + Z.of_nat (length (nodes (fst (build pos w h s)))) <= Int.INT_MAX ->
  map _id (construction_order (fst (build pos w h s)))
  = seqZ (nextId s) (Z.of_nat (length (nodes (fst (build pos w h s))))).
Proof.
  intros Hlo Hhi. destruct (build_counted pos w h s) as (k & Hlen & Hk).
  pose proof (build_created pos w h s) as Hc.
  assert (k = length (nodes (fst (build pos w h s)))) as ->.
  { rewrite Hc, length_app, length_map in Hlen.
    rewrite (Permutation_length (nodes_construction_order _)). lia. }
  destruct Hk as [Hk _]; [done..|].
  rewrite Hc in Hk. by apply app_inv_head in Hk.
Qed.

(** ** The lines of the export *)

Local Open Scope string_scope.

Lemma append_assoc (a b c : string) : (a ++ b) ++ c = a ++ (b ++ c).
Proof. induction a as [|ch a IH]; cbn; [done | by rewrite IH]. Qed.

Lemma append_empty_r (a : string) : a ++ "" = a.
Proof. induction a as [|ch a IH]; cbn; [done | by rewrite IH]. Qed.

Lemma one_line_append a b : one_line (a ++ b) = one_line a && one_line b.
Proof. induction a as [|ch a IH]; cbn; [done | by rewrite IH, andb_assoc]. Qed.

Lemma one_line_uint d : one_line (NilEmpty.string_of_uint d) = true.
Proof. induction d; cbn; auto. Qed.

Lemma one_line_to_string z : one_line (Int.to_string z) = true.
Proof.
  unfold Int.to_string, NilZero.string_of_int, NilZero.string_of_uint.
  destruct (Z.to_int z) as [d|d]; destruct d; cbn; auto using one_line_uint.
Qed.

(** Reading a line and its line feed off the front of a text. *)
Lemma lines_from_line line : forall cur rest,
  one_line line = true ->
  lines_from cur (line ++ endl ++ rest) = (cur ++ line) :: lines_from "" rest.
Proof.
  induction line as [|ch line IH]; intros cur rest Hl; cbn in *.
  - by rewrite append_empty_r.
  - apply andb_true_iff in Hl as [Hch Hl]. apply negb_true_iff in Hch.
    rewrite Hch, IH, append_assoc by done. reflexivity.
Qed.

Lemma node_declaration_line this : node_declaration this = node_line this ++ endl.
Proof.
  unfold node_declaration, node_line.
  destruct (is_null (_northWest this)); rewrite !append_assoc; reflexivity.
Qed.

Lemma edge_declaration_line this c label :
  edge_declaration this c label = edge_line this c label ++ endl.
Proof. unfold edge_declaration, edge_line. rewrite !append_assoc. reflexivity. Qed.

Lemma one_line_node_line this : one_line (node_line this) = true.
Proof.
  unfold node_line, Point_toString.
  destruct (is_null (_northWest this));
    rewrite ?one_line_append, ?one_line_to_string; reflexivity.
Qed.

Lemma one_line_edge_line this c label :
  one_line label = true -> one_line (edge_line this c label) = true.
Proof.
  intros Hl. unfold edge_line.
  rewrite ?one_line_append, ?one_line_to_string, Hl. reflexivity.
Qed.

Lemma lines_toDottyRecursive : forall this rest,
  lines_from "" (toDottyRecursive this ++ rest)
  = (dotty_lines this ++ lines_from "" rest)%list.
Proof.
  induction this as [id pos w h nw ne sw se Hnw Hne Hsw Hse] using QuadTree_ind.
  intros rest.
  cbn [toDottyRecursive dotty_lines _northWest _northEast _southWest _southEast].
  set (this := mkQuadTree id pos w h nw ne sw se).
  assert (forall (p : option QuadTree) label tail,
            one_line label = true ->
            holds_at (fun t => forall rest, lines_from "" (toDottyRecursive t ++ rest)
                                 = (dotty_lines t ++ lines_from "" rest)%list) p ->
            lines_from "" (match p with
                           | Some c => edge_declaration this c label ++ toDottyRecursive c
                           | None => ""
                           end ++ tail)
            = (match p with
               | Some c => edge_line this c label :: dotty_lines c
               | None => []
               end ++ lines_from "" tail)%list) as Hp.
  { intros [c|] label tail Hl Hc; cbn [holds_at] in Hc; [|done].
    rewrite edge_declaration_line, !append_assoc.
    rewrite lines_from_line by by apply one_line_edge_line.
    by rewrite Hc. }
  rewrite node_declaration_line, !append_assoc.
  rewrite lines_from_line by apply one_line_node_line.
  cbn [String.append app]. f_equal.
  rewrite !Hp by done. by rewrite <- !app_assoc.
Qed.

Lemma lines_toDotty this :
  lines (toDotty this)
  = ("digraph QuadTree {"
       :: "  node [shape=box, style=filled, fillcolor=lightblue];"
       :: dotty_lines this ++ ["}"])%list.
Proof.
  unfold lines, toDotty.
  rewrite (lines_from_line "digraph QuadTree {") by reflexivity.
  rewrite (lines_from_line "  node [shape=box, style=filled, fillcolor=lightblue];")
    by reflexivity.
  rewrite lines_toDottyRecursive. reflexivity.
Qed.

Lemma block_skip {A} (pre rest X : list A) :
  (exists before after, rest = before ++ X ++ after)%list ->
  (exists before after, pre ++ rest = before ++ X ++ after)%list.
Proof.
  intros (b & a & ->). exists (pre ++ b)%list, a. by rewrite <- !app_assoc.
Qed.

Lemma block_here {A} (mid post X : list A) :
  (exists before after, mid = before ++ X ++ after)%list ->
  (exists before after, mid ++ post = before ++ X ++ after)%list.
Proof.
  intros (b & a & ->). exists b, (a ++ post)%list. by rewrite <- !app_assoc.
Qed.

(** The export of every node of the tree is a block of consecutive
    lines of the export of the tree. *)
Lemma dotty_lines_block : forall this n,
  In n (nodes this) ->
  exists before after, dotty_lines this = (before ++ dotty_lines n ++ after)%list.
Proof.
  induction this as [id pos w h nw ne sw se Hnw Hne Hsw Hse] using QuadTree_ind.
  intros n Hn. set (this := mkQuadTree id pos w h nw ne sw se) in *.
  destruct Hn as [<-|Hn].
  { exists [], []. by rewrite app_nil_r. }
  cbn [dotty_lines nodes this _northWest _northEast _southWest _southEast] in *.
  fold this.
  rewrite !in_app_iff in Hn.
  apply (block_skip [node_line this]).
  destruct Hn as [Hn|[Hn|[Hn|Hn]]].
  - destruct nw as [c|]; [|done].
    apply block_here, (block_skip [edge_line this c "NW"%string]), Hnw, Hn.
  - destruct ne as [c|]; [|done].
    apply block_skip, block_here, (block_skip [edge_line this c "NE"%string]), Hne, Hn.
  - destruct sw as [c|]; [|done].
    do 2 apply block_skip.
    apply block_here, (block_skip [edge_line this c "SW"%string]), Hsw, Hn.
  - destruct se as [c|]; [|done].
    do 3 apply block_skip.
    apply (block_skip [edge_line this c "SE"%string]), Hse, Hn.
Qed.

Local Close Scope string_scope.

Lemma lines_toDottyRecursive_alone this :
  lines (toDottyRecursive this) = dotty_lines this.
Proof.
  unfold lines. rewrite <- (append_empty_r (toDottyRecursive this)).
  rewrite lines_toDottyRecursive. cbn. by rewrite app_nil_r.
Qed.

Lemma children_four n nw ne sw se :
  children n = [nw; ne; sw; se] ->
  _northWest n = Some nw /\ _northEast n = Some ne
  /\ _southWest n = Some sw /\ _southEast n = Some se.
Proof.
  unfold children. destruct n as [? ? ? ? [?|] [?|] [?|] [?|]]; cbn;
    intros ?; by simplify_eq.
Qed.

Lemma starts_with_app block after : starts_with block (block ++ after) = true.
Proof. induction block as [|b block IH]; cbn; [done|]. by rewrite String.eqb_refl. Qed.

Lemma contains_block_app before block after :
  contains_block block (before ++ block ++ after) = true.
Proof.
  induction before as [|l before IH]; cbn [app].
  - pose proof (starts_with_app block after) as Hs.
    destruct (block ++ after); cbn [contains_block]; by rewrite Hs.
  - cbn [contains_block]. by rewrite IH, orb_true_r.
Qed.

(** * The claims *)

(** ** The example of [main] *)

(** C1, as stated, fails: the tree of [main] does not have 21 nodes. *)
Lemma main_tree_not_21_nodes :
  ~ (length (nodes main_tree) = 21%nat
     /\ Permutation (map _id (nodes main_tree)) (seqZ 0 21)
     /\ length (edge_lines (toDotty main_tree)) = 20%nat).
Proof. intros [H _]. vm_compute in H. discriminate. Qed.

(** C1, amended.  The 100x100 region halves to 50, 25 and 12, so the
    tree of [main] has 1 + 4 + 16 + 64 = 85 nodes; their identities are
    exactly 0..84, and the export has 84 edge declarations. *)
Theorem main_tree_85_nodes :
  length (nodes main_tree) = 85%nat
  /\ Permutation (map _id (nodes main_tree)) (seqZ 0 85)
  /\ length (edge_lines (toDotty main_tree)) = 84%nat.
Proof.
  split; [by vm_compute|]. split; [|by vm_compute].
  transitivity (map _id (construction_order main_tree)).
  - apply Permutation_map, nodes_construction_order.
  - assert (map _id (construction_order main_tree) = seqZ 0 85) as -> by by vm_compute.
    done.
Qed.

(** ** Leaf criterion *)

(** C2.  After [subdivide] has run on a root none of whose pointers is
    set, a node of the tree is childless -- by the count of its pointers
    and by the leaf test of the code alike -- exactly when its width or
    its height is at most 15.  A root with a zero or negative dimension
    takes the guard branch: the call returns it as it is, a leaf. *)
Theorem leaf_criterion (root : QuadTree) (s : State) (n : QuadTree) :
  no_children root ->
  In n (nodes (fst (subdivide root s))) ->
  (child_count n = 0%nat <-> _width n <= 15 \/ _height n <= 15)
  /\ (isLeaf n = true <-> _width n <= 15 \/ _height n <= 15)
  /\ (_width root <= 0 \/ _height root <= 0 ->
      fst (subdivide root s) = root /\ child_count root = 0%nat).
Proof.
  intros Hfresh Hn.
  pose proof (subdivides_shaped _ _ _ _ (subdivide_subdivides root s) Hfresh) as Hall.
  rewrite List.Forall_forall in Hall. specialize (Hall n Hn).
  split; [|split].
  - rewrite child_count_0. destruct Hall as [[Hc Hd]|(Hw & Hh & Hq)]; [done|].
    destruct Hq as (nw & ? & ? & ? & E & _). split; [|lia].
    intros (E' & _). congruence.
  - unfold isLeaf. destruct Hall as [[Hc Hd]|(Hw & Hh & Hq)].
    + destruct Hc as (-> & _). done.
    + destruct Hq as (nw & ? & ? & ? & -> & _). cbn. split; [done|lia].
  - intros Hneg. split; [|by apply child_count_0].
    rewrite subdivide_stop; [done|].
    unfold cannot_subdivide.
    destruct Hneg; [assert ((_width root <=? 15) = true) as -> by (apply Z.leb_le; lia)
                   |assert ((_height root <=? 15) = true) as -> by (apply Z.leb_le; lia)];
      cbn; by rewrite ?orb_true_r.
Qed.

Lemma leaf_criterion_witness :
  (child_count small_tree = 0%nat <-> _width small_tree <= 15 \/ _height small_tree <= 15)
  /\ (isLeaf small_tree = true <-> _width small_tree <= 15 \/ _height small_tree <= 15)
  /\ (20 <= 0 \/ 20 <= 0 ->
      small_tree = leaf 0 (mkPoint 0 0) 20 20
      /\ child_count (leaf 0 (mkPoint 0 0) 20 20) = 0%nat).
Proof.
  apply (leaf_criterion (leaf 0 (mkPoint 0 0) 20 20)
           (snd (new_QuadTree (mkPoint 0 0) 20 20 initial_state)) small_tree).
  - repeat split.
  - apply nodes_self.
Defined.

(** ** Partition tiling *)

(** C3.  In a tree produced by [subdivide] from a root none of whose
    pointers is set, every node that has a child has all four, each of
    width [_width / 2] and height [_height / 2] (truncating); the
    north-west child sits at the origin of its parent, the others at the
    origin moved by the child width, the child height, or both, the sums
    being those of [int]; they are the exact sums whenever these fit
    in an [int]. *)
Theorem partition_tiling (root : QuadTree) (s : State) (n : QuadTree) :
  no_children root ->
  In n (nodes (fst (subdivide root s))) ->
  child_count n <> 0%nat ->
  quartered n
  /\ (Int.in_range (x (_pos n) + Int.div (_width n) 2) ->
      Int.in_range (y (_pos n) + Int.div (_height n) 2) ->
      exists nw ne sw se,
        children n = [nw; ne; sw; se]
        /\ _pos nw = _pos n
        /\ _pos ne = mkPoint (x (_pos n) + _width ne) (y (_pos n))
        /\ _pos sw = mkPoint (x (_pos n)) (y (_pos n) + _height sw)
        /\ _pos se = mkPoint (x (_pos n) + _width se) (y (_pos n) + _height se)).
Proof.
  intros Hfresh Hn Hc.
  pose proof (subdivides_shaped _ _ _ _ (subdivide_subdivides root s) Hfresh) as Hall.
  rewrite List.Forall_forall in Hall. specialize (Hall n Hn).
  destruct Hall as [[Hl _]|(_ & _ & Hq)]; [by apply child_count_0 in Hl|].
  split; [done|]. intros Hx Hy.
  destruct Hq as (nw & ne & sw & se & E1 & E2 & E3 & E4
                  & (? & ? & ?) & (Wne & Hne & ?) & (Wsw & Hsw & ?) & (Wse & Hse & ?)).
  exists nw, ne, sw, se. unfold children. rewrite E1, E2, E3, E4.
  rewrite Wne, Hsw, Wse, Hse, <- !add_exact by done. done.
Qed.

Lemma partition_tiling_witness :
  quartered small_tree
  /\ (Int.in_range (x (_pos small_tree) + Int.div (_width small_tree) 2) ->
      Int.in_range (y (_pos small_tree) + Int.div (_height small_tree) 2) ->
      exists nw ne sw se,
        children small_tree = [nw; ne; sw; se]
        /\ _pos nw = _pos small_tree
        /\ _pos ne = mkPoint (x (_pos small_tree) + _width ne) (y (_pos small_tree))
        /\ _pos sw = mkPoint (x (_pos small_tree)) (y (_pos small_tree) + _height sw)
        /\ _pos se = mkPoint (x (_pos small_tree) + _width se)
                             (y (_pos small_tree) + _height se)).
Proof.
  apply (partition_tiling (leaf 0 (mkPoint 0 0) 20 20)
           (snd (new_QuadTree (mkPoint 0 0) 20 20 initial_state)) small_tree).
  - repeat split.
  - apply nodes_self.
  - vm_compute. discriminate.
Defined.

(** ** Identities *)

(** C4, as stated, fails on the tree of [main]: in depth-first preorder
    the north-west child of the north-west child of the root (position 2,
    identity 5) comes before the north-east child of the root (position
    22, identity 2). *)
Lemma preorder_not_increasing :
  ~ (forall (i j : nat) (a b : QuadTree),
       nodes main_tree !! i = Some a -> nodes main_tree !! j = Some b ->
       (i < j)%nat -> _id a < _id b).
Proof.
  intros H.
  remember (nodes main_tree) as preorder eqn:E.
  assert (_id <$> preorder !! 2%nat = Some 5) as Ia by (subst; vm_compute; reflexivity).
  assert (_id <$> preorder !! 22%nat = Some 2) as Ib by (subst; vm_compute; reflexivity).
  clear E.
  destruct (preorder !! 2%nat) as [a|] eqn:Ha; [|discriminate].
  destruct (preorder !! 22%nat) as [b|] eqn:Hb; [|discriminate].
  injection Ia as Ia. injection Ib as Ib.
  specialize (H 2%nat 22%nat a b Ha Hb ltac:(lia)). lia.
Qed.

(** C4, amended.  A run of [build] from a counter at 0 constructs the
    nodes in the order [construction_order]: the root, then the four
    children of a node together, north-west first, and only then what
    the calls on the children construct, child by child.  The identities
    along this order are 0, 1, 2, ...; of two nodes, the one that comes
    first in it has the smaller identity.  The count of nodes is assumed
    to fit the counter. *)
Theorem construction_order_increasing (pos : Point) (w h : Z) (s : State)
    (i j : nat) (a b : QuadTree) :
  nextId s = 0 ->
  Z.of_nat (length (nodes (fst (build pos w h s)))) <= Int.INT_MAX ->
  construction_order (fst (build pos w h s)) !! i = Some a ->
  construction_order (fst (build pos w h s)) !! j = Some b ->
  (i < j)%nat ->
  _id a < _id b
  /\ _id a = Z.of_nat i
  /\ created (snd (build pos w h s))
     = created s ++ map _id (construction_order (fst (build pos w h s))).
Proof.
  intros H0 Hfit Ha Hb Hij.
  pose proof (build_identities pos w h s) as Hids. rewrite H0 in Hids.
  specialize (Hids ltac:(unfold Int.INT_MIN; lia) ltac:(lia)).
  assert (forall k c, construction_order (fst (build pos w h s)) !! k = Some c ->
                      _id c = Z.of_nat k) as Hk.
  { intros k c Hc. apply (f_equal (fun l => l !! k)) in Hids.
    change (map _id ?l) with (_id <$> l) in Hids.
    rewrite list_lookup_fmap, Hc in Hids. symmetry in Hids.
    apply lookup_seqZ in Hids as [-> _]. cbn. lia. }
  rewrite (Hk i a Ha), (Hk j b Hb). split; [lia|]. split; [done|].
  apply build_created.
Qed.

Lemma construction_order_increasing_witness :
  _id small_tree < _id (leaf 1 (mkPoint 0 0) 10 10)
  /\ _id small_tree = Z.of_nat 0
  /\ created (snd (build (mkPoint 0 0) 20 20 initial_state))
     = created initial_state
       ++ map _id (construction_order (fst (build (mkPoint 0 0) 20 20 initial_state))).
Proof.
  apply (construction_order_increasing (mkPoint 0 0) 20 20 initial_state 0 1
           small_tree (leaf 1 (mkPoint 0 0) 10 10)).
  - reflexivity.
  - vm_compute. discriminate.
  - vm_compute. reflexivity.
  - vm_compute. reflexivity.
  - lia.
Defined.

Lemma wrap_add_wrap a b : Int.wrap (Int.wrap a + b) = Int.wrap (a + b).
Proof.
  unfold Int.wrap. f_equal.
  replace ((a + 2 ^ 31) mod 2 ^ 32 - 2 ^ 31 + b + 2 ^ 31)
    with ((a + 2 ^ 31) mod 2 ^ 32 + b) by lia.
  replace (a + b + 2 ^ 31) with (a + 2 ^ 31 + b) by lia.
  by rewrite Zplus_mod_idemp_l.
Qed.

(** Any number of constructor calls in a row is a run of the process;
    the node constructed after [k] others receives [k] wrapped to [int]. *)
Lemma constructors_in_a_row (n : nat) :
  exists s, reachable s
            /\ nextId s = Int.wrap (Z.of_nat n)
            /\ created s = map (fun k => Int.wrap (Z.of_nat k)) (seq 0 n).
Proof.
  induction n as [|n (s & Hr & Hn & Hc)].
  - exists initial_state. split; [constructor|]. split; reflexivity.
  - exists (snd (new_QuadTree (mkPoint 0 0) 0 0 s)).
    split; [exact (reachable_step _ _ Hr (step_new _ _ _ _))|].
    rewrite new_QuadTree_eq. cbn [snd nextId created]. split.
    + unfold Int.add. rewrite Hn, wrap_add_wrap. f_equal. lia.
    + rewrite Hc, Hn, seq_S, map_app. reflexivity.
Qed.

(** C5, as stated, fails: the counter is an [int].  In the run of
    2^31 + 1 constructor calls the last increment leaves [INT_MAX]
    (undefined in C++; in two's complement the counter wraps), and the
    last node receives the identity -2^31, which is negative. *)
Lemma identities_wrap_around :
  ~ (forall s, reachable s ->
       nextId s = Z.of_nat (length (created s))
       /\ (forall pos w h,
             _id (fst (new_QuadTree pos w h s)) = Z.of_nat (length (created s))
             /\ created (snd (new_QuadTree pos w h s))
                = created s ++ [_id (fst (new_QuadTree pos w h s))])
       /\ NoDup (created s)
       /\ (forall id, In id (created s) -> 0 <= id)
       /\ (forall (i j : nat) (a b : Z),
             created s !! i = Some a -> created s !! j = Some b -> (i < j)%nat -> a < b)).
Proof.
  intros H.
  assert (exists k : nat, Z.of_nat k = 2 ^ 31) as [k Hk].
  { exists (Z.to_nat (2 ^ 31)). apply Z2Nat.id. lia. }
  destruct (constructors_in_a_row (S k)) as (s & Hr & _ & Hc).
  destruct (H s Hr) as (_ & _ & _ & Hpos & _).
  specialize (Hpos (Int.wrap (Z.of_nat k))).
  rewrite Hk in Hpos. change (Int.wrap (2 ^ 31)) with (- 2 ^ 31) in Hpos.
  assert (0 <= - 2 ^ 31) as Habs; [|lia].
  apply Hpos. rewrite Hc. apply in_map_iff. exists k. split.
  - by rewrite Hk.
  - apply in_seq. lia.
Qed.

(** C5, amended.  In any run of the process, as long as the count of
    constructed nodes is at most [INT_MAX]: the counter equals the number
    of nodes constructed so far (one increment per node, never set
    back), so the next node constructed receives that number as its
    identity; the identities handed out are pairwise distinct and not
    negative, and a node constructed earlier has a smaller identity than
    one constructed later. *)
Theorem identities_unique_and_monotone (s : State) :
  reachable s ->
  Z.of_nat (length (created s)) <= Int.INT_MAX ->
  nextId s = Z.of_nat (length (created s))
  /\ (forall pos w h,
        _id (fst (new_QuadTree pos w h s)) = Z.of_nat (length (created s))
        /\ created (snd (new_QuadTree pos w h s))
           = created s ++ [_id (fst (new_QuadTree pos w h s))])
  /\ NoDup (created s)
  /\ (forall id, In id (created s) -> 0 <= id)
  /\ (forall (i j : nat) (a b : Z),
        created s !! i = Some a -> created s !! j = Some b -> (i < j)%nat -> a < b).
Proof.
  intros Hr Hfit. destruct (reachable_counted s Hr) as (k & Hlen & Hk).
  cbn [initial_state created nextId length] in *.
  assert (k = length (created s)) as -> by lia.
  destruct Hk as [Hc Hn]; [unfold Int.INT_MIN; lia | lia |].
  cbn [app] in Hc. split; [lia|]. split.
  { intros pos w h. rewrite new_QuadTree_eq. cbn [fst snd leaf _id created]. split; [lia|done]. }
  rewrite Hc. split; [|split].
  - apply NoDup_seqZ.
  - intros id Hid%list_elem_of_In%elem_of_seqZ. lia.
  - intros i j a b [-> _]%lookup_seqZ [-> _]%lookup_seqZ Hij. lia.
Qed.

Lemma identities_unique_and_monotone_witness :
  created (snd (build (mkPoint 0 0) 20 20 initial_state)) = [0; 1; 2; 3; 4]
  /\ nextId (snd (build (mkPoint 0 0) 20 20 initial_state)) = Z.of_nat (length (created (snd (build (mkPoint 0 0) 20 20 initial_state))))
  /\ (forall pos w h,
        _id (fst (new_QuadTree pos w h (snd (build (mkPoint 0 0) 20 20 initial_state)))) = Z.of_nat (length (created (snd (build (mkPoint 0 0) 20 20 initial_state))))
        /\ created (snd (new_QuadTree pos w h (snd (build (mkPoint 0 0) 20 20 initial_state))))
           = created (snd (build (mkPoint 0 0) 20 20 initial_state)) ++ [_id (fst (new_QuadTree pos w h (snd (build (mkPoint 0 0) 20 20 initial_state))))])
  /\ NoDup (created (snd (build (mkPoint 0 0) 20 20 initial_state)))
  /\ (forall id, In id (created (snd (build (mkPoint 0 0) 20 20 initial_state))) -> 0 <= id)
  /\ (forall (i j : nat) (a b : Z),
        created (snd (build (mkPoint 0 0) 20 20 initial_state)) !! i = Some a -> created (snd (build (mkPoint 0 0) 20 20 initial_state)) !! j = Some b -> (i < j)%nat -> a < b).
Proof.
  split; [vm_compute; reflexivity|].
  apply (identities_unique_and_monotone (snd (build (mkPoint 0 0) 20 20 initial_state))).
  - exact (reachable_step _ _
             (reachable_step _ _ reachable_initial
                (step_new (mkPoint 0 0) 20 20 initial_state))
             (step_subdivide (leaf 0 (mkPoint 0 0) 20 20)
                (snd (new_QuadTree (mkPoint 0 0) 20 20 initial_state)))).
  - vm_compute. discriminate.
Defined.

(** ** Idempotence *)

(** C6.  [subdivide] on a node that already has children (its
    north-west pointer is set, which is how the code tells) changes
    nothing: the node comes back as it was, no constructor runs, and the
    counter keeps its value. *)
Theorem subdivide_again_unchanged (this : QuadTree) (s : State) :
  isLeaf this = false ->
  fst (subdivide this s) = this
  /\ nextId (snd (subdivide this s)) = nextId s
  /\ created (snd (subdivide this s)) = created s.
Proof.
  intros Hc. rewrite subdivide_stop by by apply isLeaf_false_cannot_subdivide. done.
Qed.

Lemma subdivide_again_unchanged_witness :
  fst (subdivide small_tree initial_state) = small_tree
  /\ nextId (snd (subdivide small_tree initial_state)) = nextId initial_state
  /\ created (snd (subdivide small_tree initial_state)) = created initial_state.
Proof.
  apply (subdivide_again_unchanged small_tree initial_state).
  vm_compute. reflexivity.
Defined.

(** The same for the second of any two calls in a row. *)
Lemma subdivide_twice this s s2 :
  fst (subdivide (fst (subdivide this s)) s2) = fst (subdivide this s)
  /\ nextId (snd (subdivide (fst (subdivide this s)) s2)) = nextId s2.
Proof. rewrite subdivide_stop by apply cannot_subdivide_after. done. Qed.

(** ** The diagnostic *)

(** C7, as stated, fails: [subdivide] on the tree [main] has built, whose
    root has children and measures 100x100, does write to [std::cout]. *)
Lemma subdivided_node_reports :
  isLeaf main_tree = false /\ 15 < _width main_tree /\ 15 < _height main_tree
  /\ cout (snd (subdivide main_tree initial_state)) <> cout initial_state.
Proof. vm_compute. repeat split; discriminate. Qed.

(** C7, amended.  The width test, the height test and the test for
    children are one guard with one report: whenever any of them holds,
    the call writes the "Cannot subdivide further" line of the node and
    changes nothing else -- the node comes back as it was, and the
    counter and the history of constructed nodes keep their values. *)
Theorem guard_reports (this : QuadTree) (s : State) :
  _width this <= 15 \/ _height this <= 15 \/ isLeaf this = false ->
  subdivide this s
  = (this, mkState (nextId s) (cout s ++ diagnostic this)%string (created s)).
Proof.
  intros H. apply subdivide_stop.
  unfold cannot_subdivide, isLeaf in *.
  destruct H as [H|[H|H]].
  - apply Z.leb_le in H. by rewrite H.
  - apply Z.leb_le in H. by rewrite H, orb_true_r.
  - rewrite H. cbn. by rewrite orb_true_r.
Qed.

Lemma guard_reports_witness :
  subdivide small_tree initial_state
  = (small_tree,
     mkState (nextId initial_state) (cout initial_state ++ diagnostic small_tree)%string
             (created initial_state)).
Proof.
  apply (guard_reports small_tree initial_state).
  right. right. vm_compute. reflexivity.
Defined.

(** ** Where the edges stand in the export *)

(** C8, as stated, fails on the 20x20 tree: the declaration of the root
    is followed by its north-west edge and then by the declaration of the
    north-west child, not by the other three edges. *)
Lemma edges_not_together :
  ~ (forall n nw ne sw se,
       In n (nodes small_tree) -> children n = [nw; ne; sw; se] ->
       exists before after,
         lines (toDotty small_tree)
         = before ++ [node_line n; edge_line n nw "NW"; edge_line n ne "NE";
                      edge_line n sw "SW"; edge_line n se "SE"] ++ after).
Proof.
  intros H.
  destruct (H small_tree (leaf 1 (mkPoint 0 0) 10 10) (leaf 2 (mkPoint 10 0) 10 10)
              (leaf 3 (mkPoint 0 10) 10 10) (leaf 4 (mkPoint 10 10) 10 10))
    as (before & after & E).
  - apply nodes_self.
  - by vm_compute.
  - pose proof (contains_block_app before
                  [node_line small_tree;
                   edge_line small_tree (leaf 1 (mkPoint 0 0) 10 10) "NW";
                   edge_line small_tree (leaf 2 (mkPoint 10 0) 10 10) "NE";
                   edge_line small_tree (leaf 3 (mkPoint 0 10) 10 10) "SW";
                   edge_line small_tree (leaf 4 (mkPoint 10 10) 10 10) "SE"] after) as Hb.
    rewrite <- E in Hb. vm_compute in Hb. discriminate.
Qed.

(** C8, amended.  For a node with its four children, the export holds,
    one after the other: the declaration of the node, its north-west
    edge, the whole export of the north-west subtree, its north-east
    edge, the export of the north-east subtree, and so for south-west
    and south-east.  The export of a subtree begins with the declaration
    of its root, so every edge stands right before the declaration of
    the child it points to. *)
Theorem edges_precede_subtrees (this n nw ne sw se : QuadTree) :
  In n (nodes this) ->
  children n = [nw; ne; sw; se] ->
  (exists before after,
     lines (toDotty this)
     = before
       ++ [node_line n; edge_line n nw "NW"] ++ lines (toDottyRecursive nw)
       ++ [edge_line n ne "NE"] ++ lines (toDottyRecursive ne)
       ++ [edge_line n sw "SW"] ++ lines (toDottyRecursive sw)
       ++ [edge_line n se "SE"] ++ lines (toDottyRecursive se)
       ++ after)
  /\ (forall c, In c (children n) ->
        exists rest, lines (toDottyRecursive c) = node_line c :: rest).
Proof.
  intros Hn Hc. split.
  - destruct (dotty_lines_block this n Hn) as (before & after & E).
    rewrite lines_toDotty, E, !lines_toDottyRecursive_alone.
    apply children_four in Hc as (Hnw & Hne & Hsw & Hse).
    exists ("digraph QuadTree {"%string
              :: "  node [shape=box, style=filled, fillcolor=lightblue];"%string :: before),
           (after ++ ["}"%string]).
    destruct n as [id pos w h ? ? ? ?]. cbn in Hnw, Hne, Hsw, Hse. subst.
    cbn [dotty_lines _northWest _northEast _southWest _southEast app].
    repeat (rewrite <- ?app_assoc; cbn [app]). reflexivity.
  - intros c _. rewrite lines_toDottyRecursive_alone. destruct c. cbn. eauto.
Qed.

Lemma edges_precede_subtrees_witness :
  (exists before after,
     lines (toDotty small_tree)
     = before
       ++ [node_line small_tree; edge_line small_tree (leaf 1 (mkPoint 0 0) 10 10) "NW"]
       ++ lines (toDottyRecursive (leaf 1 (mkPoint 0 0) 10 10))
       ++ [edge_line small_tree (leaf 2 (mkPoint 10 0) 10 10) "NE"]
       ++ lines (toDottyRecursive (leaf 2 (mkPoint 10 0) 10 10))
       ++ [edge_line small_tree (leaf 3 (mkPoint 0 10) 10 10) "SW"]
       ++ lines (toDottyRecursive (leaf 3 (mkPoint 0 10) 10 10))
       ++ [edge_line small_tree (leaf 4 (mkPoint 10 10) 10 10) "SE"]
       ++ lines (toDottyRecursive (leaf 4 (mkPoint 10 10) 10 10))
       ++ after)
  /\ (forall c, In c (children small_tree) ->
        exists rest, lines (toDottyRecursive c) = node_line c :: rest).
Proof.
  apply (edges_precede_subtrees small_tree small_tree).
  - apply nodes_self.
  - vm_compute. reflexivity.
Defined.

(** ** Full-or-none children *)

(** C9.  Every node of every tree the public interface hands out -- a
    node fresh from the constructor, the result of [subdivide] on such a
    tree, a child reached through a pointer -- has no child or four. *)
Theorem full_or_none_children (this n : QuadTree) :
  produced this ->
  In n (nodes this) ->
  child_count n = 0%nat \/ child_count n = 4%nat.
Proof.
  intros Hp Hn. apply produced_full_or_none in Hp.
  rewrite List.Forall_forall in Hp. by apply Hp.
Qed.

Lemma full_or_none_children_witness :
  child_count small_tree = 0%nat \/ child_count small_tree = 4%nat.
Proof.
  apply (full_or_none_children small_tree small_tree).
  - exact (produced_subdivide _ (snd (new_QuadTree (mkPoint 0 0) 20 20 initial_state))
             (produced_new (mkPoint 0 0) 20 20 initial_state)).
  - apply nodes_self.
Defined.

(** ** Termination *)

(** C10.  [subdivide] returns on every node and in every state: there is
    a result that the recursion reaches with any fuel of at least
    [log2 _width].  A call that recurses does so on regions both of whose
    dimensions are halved, hence strictly smaller and not negative. *)
Theorem subdivide_terminates (this : QuadTree) (s : State) :
  (exists r, forall fuel, (depth_bound this <= fuel)%nat ->
             subdivide_fuel fuel this s = Some r)
  /\ (cannot_subdivide this = false ->
      0 <= Int.div (_width this) 2 < _width this
      /\ 0 <= Int.div (_height this) 2 < _height this).
Proof.
  split.
  - exists (subdivide this s). intros fuel Hf. by apply subdivide_fuel_enough.
  - intros (Hw & Hh & _)%cannot_subdivide_false. split; by apply div_2_lt.
Qed.

Lemma subdivide_terminates_witness :
  (exists r, subdivide_fuel 4 (leaf 0 (mkPoint 0 0) 20 20) initial_state = Some r)
  /\ 0 <= Int.div 20 2 < 20.
Proof.
  destruct (subdivide_terminates (leaf 0 (mkPoint 0 0) 20 20) initial_state)
    as [[r Hr] Hd].
  split.
  - exists r. apply Hr. vm_compute. lia.
  - apply Hd. reflexivity.
Defined.

(** * Further properties *)

(** ** [printTree] *)

Lemma indentation_ok depth :
  0 <= depth -> depth * 4 <= Int.INT_MAX ->
  indentation depth = inr (spaces (Z.to_nat (depth * 4))).
Proof.
  intros H0 H1. unfold indentation. rewrite wrap_in_range.
  - destruct (Z.ltb_spec (depth * 4) 0); [lia|done].
  - unfold Int.in_range, Int.INT_MIN, Int.INT_MAX in *. lia.
Qed.

Lemma rows_text_app rows1 rows2 :
  rows_text (rows1 ++ rows2) = (rows_text rows1 ++ rows_text rows2)%string.
Proof.
  induction rows1 as [|r rows1 IH]; [done|].
  change (rows_text ((r :: rows1) ++ rows2))
    with (print_row r ++ endl ++ rows_text (rows1 ++ rows2))%string.
  change (rows_text (r :: rows1)) with (print_row r ++ endl ++ rows_text rows1)%string.
  by rewrite IH, !append_assoc.
Qed.

Lemma full_or_none_pointers this :
  full_or_none this ->
  no_children this
  \/ exists nw ne sw se,
       _northWest this = Some nw /\ _northEast this = Some ne
       /\ _southWest this = Some sw /\ _southEast this = Some se.
Proof.
  unfold full_or_none, child_count, children, no_children.
  destruct this as [? ? ? ? [?|] [?|] [?|] [?|]]; cbn; intros [H|H];
    try discriminate; eauto 10.
Qed.

Lemma printTree_rows : forall this depth s,
  Forall full_or_none (nodes this) ->
  0 <= depth ->
  (depth + Z.of_nat (height this)) * 4 <= Int.INT_MAX ->
  printTree this depth s
  = inr (mkState (nextId s) (cout s ++ rows_text (nodes_at this depth))%string (created s)).
Proof.
  induction this as [id pos w h nw ne sw se Hnw Hne Hsw Hse] using QuadTree_ind.
  intros depth s Hall H0 Hfit.
  assert (Hroot : full_or_none (mkQuadTree id pos w h nw ne sw se)) by (by inversion Hall).
  cbn [printTree]. rewrite indentation_ok by lia.
  destruct (full_or_none_pointers _ Hroot)
    as [(E1 & E2 & E3 & E4)|(cnw & cne & csw & cse & E1 & E2 & E3 & E4)];
    cbn [_northWest _northEast _southWest _southEast] in E1, E2, E3, E4; subst.
  - cbn [_northWest nodes_at app write_cout snd cout nextId created].
    unfold rows_text, print_row. cbn [foldr fst snd _northWest is_null].
    by rewrite !append_assoc, append_empty_r.
  - cbn [holds_at] in *.
    cbn [nodes _northWest _northEast _southWest _southEast] in Hall.
    apply Forall_cons_1 in Hall as [_ Hall].
    rewrite !Forall_app in Hall. destruct Hall as (A1 & A2 & A3 & A4).
    cbn [height _northWest _northEast _southWest _southEast] in Hfit.
    assert (Int.add depth 1 = depth + 1) as ->.
    { apply add_exact. unfold Int.in_range, Int.INT_MIN, Int.INT_MAX in *. lia. }
    cbn [_northWest _northEast _southWest _southEast through].
    rewrite Hnw by (done || lia). cbn [and_then].
    rewrite Hne by (done || lia). cbn [and_then].
    rewrite Hsw by (done || lia). cbn [and_then].
    rewrite Hse by (done || lia).
    cbn [nodes_at _northWest _northEast _southWest _southEast].
    cbn [write_cout snd cout nextId created].
    do 2 f_equal.
    change (rows_text ((?r :: ?l)%list)) with (print_row r ++ endl ++ rows_text l)%string.
    rewrite !rows_text_app. unfold print_row at 1. cbn [fst snd _northWest is_null].
    by rewrite !append_assoc.
Qed.

Lemma one_line_spaces n : one_line (spaces n) = true.
Proof. induction n; cbn; auto. Qed.

Lemma one_line_print_row row : one_line (print_row row) = true.
Proof.
  unfold print_row, print_head, Point_toString.
  destruct (is_null (_northWest (fst row)));
    rewrite ?one_line_append, ?one_line_to_string, ?one_line_spaces; reflexivity.
Qed.

Lemma lines_rows_text rows :
  lines (rows_text rows) = map print_row rows.
Proof.
  unfold lines. induction rows as [|r rows IH]; [done|].
  change (rows_text (r :: rows)) with (print_row r ++ endl ++ rows_text rows)%string.
  rewrite lines_from_line by apply one_line_print_row. cbn [map]. by rewrite IH.
Qed.

Lemma nodes_at_nodes : forall this depth, map fst (nodes_at this depth) = nodes this.
Proof.
  induction this as [id pos w h nw ne sw se Hnw Hne Hsw Hse] using QuadTree_ind.
  intros depth. cbn [nodes_at nodes _northWest _northEast _southWest _southEast map fst].
  rewrite !map_app. f_equal.
  destruct nw, ne, sw, se; cbn [holds_at] in *;
    rewrite ?Hnw, ?Hne, ?Hsw, ?Hse; reflexivity.
Qed.

(** X1.  On a tree the public interface has handed out, printed from a
    depth that is not negative and with indentations that fit an [int],
    [printTree] returns; it leaves the counter alone and adds to
    [std::cout] exactly one line per node, in depth-first preorder, the
    line of a node at depth [d] being indented by [4 * d] blanks and
    tagged as a leaf exactly when the node has no north-west child. *)
Theorem printTree_one_line_per_node (this : QuadTree) (depth : Z) (s : State) :
  produced this ->
  0 <= depth ->
  (depth + Z.of_nat (height this)) * 4 <= Int.INT_MAX ->
  exists text,
    printTree this depth s = inr (mkState (nextId s) (cout s ++ text)%string (created s))
    /\ lines text = map print_row (nodes_at this depth)
    /\ map fst (nodes_at this depth) = nodes this.
Proof.
  intros Hp H0 Hfit. exists (rows_text (nodes_at this depth)).
  split; [|split].
  - apply printTree_rows; [by apply produced_full_or_none|done..].
  - apply lines_rows_text.
  - apply nodes_at_nodes.
Qed.

Lemma printTree_one_line_per_node_witness :
  exists text,
    printTree small_tree 0 initial_state
    = inr (mkState (nextId initial_state) (cout initial_state ++ text)%string
             (created initial_state))
    /\ lines text = map print_row (nodes_at small_tree 0)
    /\ map fst (nodes_at small_tree 0) = nodes small_tree.
Proof.
  apply (printTree_one_line_per_node small_tree 0 initial_state).
  - exact (produced_subdivide _ (snd (new_QuadTree (mkPoint 0 0) 20 20 initial_state))
             (produced_new (mkPoint 0 0) 20 20 initial_state)).
  - lia.
  - vm_compute. discriminate.
Defined.

(** X2.  [printTree] tests only the north-west pointer: on a node that
    has a north-west child but lacks one of the other three it never
    returns normally, whatever the depth and the state. *)
Theorem printTree_follows_null (this nw : QuadTree) (depth : Z) (s : State) :
  _northWest this = Some nw ->
  child_count this <> 4%nat ->
  exists f, printTree this depth s = inl f.
Proof.
  intros Hnw Hc. destruct this as [id pos w h onw one osw ose].
  cbn [_northWest] in Hnw. subst onw. cbn [printTree].
  destruct (indentation depth) as [f|indent]; [eauto|].
  cbn [_northWest _northEast _southWest _southEast].
  destruct (printTree nw _ _) as [f|s3]; cbn [and_then]; [eauto|].
  destruct one as [ne|]; cbn [through]; [|eauto].
  destruct (printTree ne _ _) as [f|s4]; cbn [and_then]; [eauto|].
  destruct osw as [sw|]; cbn [through]; [|eauto].
  destruct (printTree sw _ _) as [f|s5]; cbn [and_then]; [eauto|].
  destruct ose as [se|]; cbn [through]; [|eauto].
  by contradict Hc.
Qed.

Lemma printTree_follows_null_witness :
  exists f,
    printTree (mkQuadTree 0 (mkPoint 0 0) 20 20
                 (Some (leaf 1 (mkPoint 0 0) 10 10)) None None None) 0 initial_state
    = inl f.
Proof.
  apply (printTree_follows_null _ (leaf 1 (mkPoint 0 0) 10 10)).
  - reflexivity.
  - vm_compute. discriminate.
Defined.

(** ** What [subdivide] reports *)

Lemma concat_text_app l1 l2 :
  concat_text (l1 ++ l2) = (concat_text l1 ++ concat_text l2)%string.
Proof.
  induction l1 as [|t l1 IH]; [done|].
  cbn [app concat_text foldr]. fold (concat_text (l1 ++ l2)). fold (concat_text l1).
  by rewrite IH, append_assoc.
Qed.

Lemma leaves_no_children this : no_children this -> leaves this = [this].
Proof.
  intros Hf. unfold leaves. rewrite nodes_no_children by done.
  cbn. unfold isLeaf. by destruct Hf as [-> _].
Qed.

Lemma leaves_set_children this nw ne sw se :
  leaves (set_children this nw ne sw se)
  = leaves nw ++ leaves ne ++ leaves sw ++ leaves se.
Proof.
  unfold leaves. rewrite nodes_set_children. cbn [List.filter isLeaf set_children
    _northWest is_null]. by rewrite !List.filter_app.
Qed.

Lemma new_QuadTree_cout pos w h s t s1 :
  new_QuadTree pos w h s = (t, s1) -> cout s1 = cout s.
Proof. by intros [_ ->]%new_QuadTree_inv. Qed.

Lemma subdivides_cout this s this' s' :
  subdivides this s this' s' -> no_children this ->
  cout s' = (cout s ++ concat_text (map diagnostic (leaves this')))%string.
Proof.
  induction_on_run; intros Hfresh.
  - rewrite leaves_no_children by done. cbn. by rewrite append_empty_r.
  - apply new_QuadTree_cout in Enw as C1, Ene as C2, Esw as C3, Ese as C4.
    fresh_children.
    rewrite leaves_set_children, !map_app, !concat_text_app.
    rewrite IHse, IHsw, IHne, IHnw by apply leaf_no_children.
    cbn [cout] in *. by rewrite !append_assoc.
Qed.

(** X3.  A call of [subdivide] on a node without children writes to
    [std::cout] the diagnostic of every leaf of the tree it leaves, once
    each and in depth-first order, and nothing for a node that it has
    split. *)
Theorem subdivide_reports_leaves (root : QuadTree) (s : State) :
  no_children root ->
  cout (snd (subdivide root s))
  = (cout s ++ concat_text (map diagnostic (leaves (fst (subdivide root s)))))%string.
Proof.
  intros Hf. by apply (subdivides_cout _ _ _ _ (subdivide_subdivides root s)).
Qed.

Lemma subdivide_reports_leaves_witness :
  cout (snd (subdivide (leaf 0 (mkPoint 0 0) 20 20) initial_state))
  = (cout initial_state
     ++ concat_text (map diagnostic
                       (leaves (fst (subdivide (leaf 0 (mkPoint 0 0) 20 20) initial_state)))))%string.
Proof.
  apply (subdivide_reports_leaves (leaf 0 (mkPoint 0 0) 20 20) initial_state).
  repeat split.
Defined.

(** ** The tree is uniform *)

Lemma levels_fuel_stable fuel1 : forall fuel2 w h,
  (Z.to_nat (Z.log2 w) <= fuel1)%nat -> (Z.to_nat (Z.log2 w) <= fuel2)%nat ->
  levels_fuel fuel1 w h = levels_fuel fuel2 w h.
Proof.
  induction fuel1 as [|fuel1 IH]; intros fuel2 w h H1 H2.
  - destruct fuel2 as [|fuel2]; [done|]. cbn [levels_fuel].
    destruct (Z.leb_spec w 15) as [Hw|Hw]; [done|].
    assert (4 <= Z.log2 w) by (change 4 with (Z.log2 16); apply Z.log2_le_mono; lia). lia.
  - cbn [levels_fuel]. destruct (Z.leb_spec w 15) as [Hw|Hw].
    { destruct fuel2; cbn [levels_fuel]; destruct (Z.leb_spec w 15); done || lia. }
    assert (4 <= Z.log2 w) by (change 4 with (Z.log2 16); apply Z.log2_le_mono; lia).
    destruct fuel2 as [|fuel2]; [lia|]. cbn [levels_fuel].
    destruct (Z.leb_spec w 15); [lia|]. cbn [orb].
    destruct (h <=? 15); [done|]. f_equal.
    apply IH; rewrite log2_div_2 by lia; lia.
Qed.

Lemma levels_stop w h : w <= 15 \/ h <= 15 -> levels w h = O.
Proof.
  intros H. unfold levels. destruct (Z.to_nat (Z.log2 w)); [done|]. cbn [levels_fuel].
  destruct H as [H|H]; apply Z.leb_le in H; rewrite H; by rewrite ?orb_true_r.
Qed.

Lemma levels_split w h :
  15 < w -> 15 < h -> levels w h = S (levels (Int.div w 2) (Int.div h 2)).
Proof.
  intros Hw Hh. unfold levels.
  assert (4 <= Z.log2 w) by (change 4 with (Z.log2 16); apply Z.log2_le_mono; lia).
  destruct (Z.to_nat (Z.log2 w)) as [|f] eqn:E; [lia|]. cbn [levels_fuel].
  apply Z.leb_gt in Hw as Hw', Hh as Hh'. rewrite Hw', Hh'. cbn [orb]. f_equal.
  apply levels_fuel_stable; rewrite log2_div_2 by lia; lia.
Qed.

Lemma subdivides_perfect this s this' s' :
  subdivides this s this' s' -> no_children this ->
  perfect (levels (_width this) (_height this)) this'.
Proof.
  induction_on_run; intros Hfresh.
  - rewrite levels_stop; [done|].
    unfold cannot_subdivide in Hg. destruct Hfresh as [Hnw _]. rewrite Hnw in Hg.
    cbn [is_null negb] in Hg. rewrite orb_false_r in Hg.
    apply orb_true_iff in Hg as [?%Z.leb_le | ?%Z.leb_le]; auto.
  - fresh_children. apply cannot_subdivide_false in Hg as (Hw & Hh & _).
    rewrite levels_split by done. cbn [perfect].
    exists nw', ne', sw', se'. repeat split; try done;
      [apply IHnw|apply IHne|apply IHsw|apply IHse]; apply leaf_no_children.
Qed.

Lemma perfect_nodes : forall d this,
  perfect d this -> (3 * length (nodes this) + 1 = 4 ^ S d)%nat.
Proof.
  induction d as [|d IH]; intros this Hp.
  - cbn [perfect] in Hp. by rewrite nodes_no_children.
  - destruct Hp as (nw & ne & sw & se & E1 & E2 & E3 & E4 & P1 & P2 & P3 & P4).
    apply IH in P1, P2, P3, P4.
    destruct this as [id pos w h ? ? ? ?]. cbn in E1, E2, E3, E4. subst.
    cbn [nodes _northWest _northEast _southWest _southEast length].
    rewrite !length_app. change (4 ^ S (S d))%nat with (4 * 4 ^ S d)%nat. lia.
Qed.

Lemma perfect_leaves : forall d this,
  perfect d this -> length (leaves this) = (4 ^ d)%nat.
Proof.
  induction d as [|d IH]; intros this Hp.
  - cbn [perfect] in Hp. by rewrite leaves_no_children.
  - destruct Hp as (nw & ne & sw & se & E1 & E2 & E3 & E4 & P1 & P2 & P3 & P4).
    apply IH in P1, P2, P3, P4.
    destruct this as [id pos w h ? ? ? ?]. cbn in E1, E2, E3, E4. subst.
    unfold leaves in *.
    cbn [nodes _northWest _northEast _southWest _southEast List.filter isLeaf is_null].
    rewrite !List.filter_app, !length_app. change (4 ^ S d)%nat with (4 * 4 ^ d)%nat. lia.
Qed.

Lemma perfect_height : forall d this, perfect d this -> height this = d.
Proof.
  induction d as [|d IH]; intros this Hp.
  - destruct this; destruct Hp as (E1 & E2 & E3 & E4); cbn in *; by subst.
  - destruct Hp as (nw & ne & sw & se & E1 & E2 & E3 & E4 & P1 & P2 & P3 & P4).
    apply IH in P1, P2, P3, P4.
    destruct this as [id pos w h ? ? ? ?]. cbn in E1, E2, E3, E4. subst.
    cbn [height _northWest _northEast _southWest _southEast]. lia.
Qed.

(** X4.  The tree [subdivide] leaves of a node without children is
    uniform: with [d] the number of halvings of the region before the
    guard stops, every leaf is exactly [d] levels down and every node
    above the leaves has its four children.  So the tree has
    (4^(d+1) - 1) / 3 nodes, 4^d of them leaves. *)
Theorem subdivide_perfect (root : QuadTree) (s : State) :
  no_children root ->
  perfect (levels (_width root) (_height root)) (fst (subdivide root s))
  /\ (3 * length (nodes (fst (subdivide root s))) + 1
      = 4 ^ S (levels (_width root) (_height root)))%nat
  /\ length (leaves (fst (subdivide root s)))
     = (4 ^ levels (_width root) (_height root))%nat
  /\ height (fst (subdivide root s)) = levels (_width root) (_height root).
Proof.
  intros Hf.
  pose proof (subdivides_perfect _ _ _ _ (subdivide_subdivides root s) Hf) as Hp.
  auto using perfect_nodes, perfect_leaves, perfect_height.
Qed.

Lemma subdivide_perfect_witness :
  perfect (levels 20 20) (fst (subdivide (leaf 0 (mkPoint 0 0) 20 20) initial_state))
  /\ (3 * length (nodes (fst (subdivide (leaf 0 (mkPoint 0 0) 20 20) initial_state))) + 1
      = 4 ^ S (levels 20 20))%nat
  /\ length (leaves (fst (subdivide (leaf 0 (mkPoint 0 0) 20 20) initial_state)))
     = (4 ^ levels 20 20)%nat
  /\ height (fst (subdivide (leaf 0 (mkPoint 0 0) 20 20) initial_state)) = levels 20 20.
Proof.
  apply (subdivide_perfect (leaf 0 (mkPoint 0 0) 20 20) initial_state).
  repeat split.
Defined.

(** ** Sizes *)

Lemma nodes_at_set_children this nw ne sw se depth :
  nodes_at (set_children this nw ne sw se) depth
  = (set_children this nw ne sw se, depth)
      :: nodes_at nw (depth + 1) ++ nodes_at ne (depth + 1)
      ++ nodes_at sw (depth + 1) ++ nodes_at se (depth + 1).
Proof. reflexivity. Qed.

Lemma nodes_at_no_children this depth :
  no_children this -> nodes_at this depth = [(this, depth)].
Proof. destruct this; intros (H1 & H2 & H3 & H4); cbn in *; by subst. Qed.

Lemma halve_again a k : 15 < a -> 0 <= k -> Int.div a 2 / 2 ^ k = a / 2 ^ (k + 1).
Proof.
  intros Ha Hk. unfold Int.div. rewrite Z.quot_div_nonneg by lia.
  rewrite Z.pow_add_r, Z.pow_1_r by lia.
  rewrite Z.div_div by lia. f_equal. lia.
Qed.

Lemma subdivides_sizes this s this' s' :
  subdivides this s this' s' -> no_children this ->
  forall depth n k, In (n, k) (nodes_at this' depth) ->
    depth <= k
    /\ _width n = _width this / 2 ^ (k - depth)
    /\ _height n = _height this / 2 ^ (k - depth).
Proof.
  induction_on_run; intros Hfresh depth n k Hn.
  - rewrite nodes_at_no_children in Hn by done. destruct Hn as [[= <- <-]|[]].
    rewrite Z.sub_diag, !Z.div_1_r. split; [lia|done].
  - fresh_children. apply cannot_subdivide_false in Hg as (Hw & Hh & _).
    rewrite nodes_at_set_children in Hn. destruct Hn as [[= <- <-]|Hn].
    { rewrite Z.sub_diag, !Z.div_1_r. split; [lia|done]. }
    rewrite !in_app_iff in Hn.
    assert (forall c c' s1 s2,
              (forall depth n k, In (n, k) (nodes_at c' depth) ->
                 depth <= k /\ _width n = _width c / 2 ^ (k - depth)
                 /\ _height n = _height c / 2 ^ (k - depth)) ->
              _width c = Int.div (_width this) 2 -> _height c = Int.div (_height this) 2 ->
              subdivides c s1 c' s2 ->
              In (n, k) (nodes_at c' (depth + 1)) ->
              depth <= k /\ _width n = _width this / 2 ^ (k - depth)
              /\ _height n = _height this / 2 ^ (k - depth)) as Hq.
    { intros c c' sa sb IH Ew Eh _ Hin. apply IH in Hin as (Hk & -> & ->).
      rewrite Ew, Eh, !halve_again by lia.
      replace (k - (depth + 1) + 1) with (k - depth) by lia. split; [lia|done]. }
    destruct Hn as [Hn|[Hn|[Hn|Hn]]];
      [eapply (Hq _ nw')|eapply (Hq _ ne')|eapply (Hq _ sw')|eapply (Hq _ se')];
      try eassumption; try reflexivity;
      intros; [apply IHnw|apply IHne|apply IHsw|apply IHse];
      auto using leaf_no_children.
Qed.

(** X5.  In the tree [subdivide] leaves of a node without children, a
    node [k] levels below the root has the width and the height of the
    root divided by [2^k]: all the nodes of a level have the same size. *)
Theorem subdivide_level_sizes (root : QuadTree) (s : State) (n : QuadTree) (k : Z) :
  no_children root ->
  In (n, k) (nodes_at (fst (subdivide root s)) 0) ->
  0 <= k
  /\ _width n = _width root / 2 ^ k
  /\ _height n = _height root / 2 ^ k.
Proof.
  intros Hf Hn.
  destruct (subdivides_sizes _ _ _ _ (subdivide_subdivides root s) Hf 0 n k Hn)
    as (Hk & Hw & Hh).
  by rewrite Z.sub_0_r in Hw, Hh.
Qed.

Lemma subdivide_level_sizes_witness :
  0 <= 1
  /\ _width (leaf 1 (mkPoint 0 0) 10 10) = _width (leaf 0 (mkPoint 0 0) 20 20) / 2 ^ 1
  /\ _height (leaf 1 (mkPoint 0 0) 10 10) = _height (leaf 0 (mkPoint 0 0) 20 20) / 2 ^ 1.
Proof.
  apply (subdivide_level_sizes (leaf 0 (mkPoint 0 0) 20 20)
           (snd (new_QuadTree (mkPoint 0 0) 20 20 initial_state))).
  - repeat split.
  - vm_compute. auto.
Defined.

Lemma subdivides_min_size this s this' s' :
  subdivides this s this' s' -> no_children this ->
  forall n, In n (descendants this') -> 8 <= _width n /\ 8 <= _height n.
Proof.
  induction_on_run; intros Hfresh n Hn.
  - rewrite descendants_no_children in Hn by done. destruct Hn.
  - fresh_children. apply cannot_subdivide_false in Hg as (Hw & Hh & _).
    rewrite descendants_set_children, !in_app_iff in Hn.
    assert (8 <= Int.div (_width this) 2 /\ 8 <= Int.div (_height this) 2) as Hc.
    { unfold Int.div. rewrite !Z.quot_div_nonneg by lia.
      split; apply Z.div_le_lower_bound; lia. }
    apply subdivides_root in Hnw as R1, Hne as R2, Hsw as R3, Hse as R4.
    cbn [leaf _width _height] in R1, R2, R3, R4.
    destruct Hn as [Hn|[Hn|[Hn|[Hn|Hn]]]].
    + destruct Hn as [<-|[<-|[<-|[<-|[]]]]];
        [destruct R1 as (_ & _ & -> & ->)|destruct R2 as (_ & _ & -> & ->)
        |destruct R3 as (_ & _ & -> & ->)|destruct R4 as (_ & _ & -> & ->)]; done.
    + apply IHnw; auto using leaf_no_children.
    + apply IHne; auto using leaf_no_children.
    + apply IHsw; auto using leaf_no_children.
    + apply IHse; auto using leaf_no_children.
Qed.

(** X6.  [subdivide] never makes a small node: every node it adds below
    a node without children is at least 8 wide and 8 high. *)
Theorem subdivide_min_size (root : QuadTree) (s : State) (n : QuadTree) :
  no_children root ->
  In n (descendants (fst (subdivide root s))) ->
  8 <= _width n /\ 8 <= _height n.
Proof.
  intros Hf Hn.
  by apply (subdivides_min_size _ _ _ _ (subdivide_subdivides root s) Hf).
Qed.

Lemma subdivide_min_size_witness :
  8 <= _width (leaf 1 (mkPoint 0 0) 10 10) /\ 8 <= _height (leaf 1 (mkPoint 0 0) 10 10).
Proof.
  apply (subdivide_min_size (leaf 0 (mkPoint 0 0) 20 20)
           (snd (new_QuadTree (mkPoint 0 0) 20 20 initial_state))).
  - repeat split.
  - vm_compute. auto.
Defined.

(** ** Regions *)

Lemma inside_refl this : inside this this.
Proof. unfold inside. lia. Qed.

Lemma inside_trans a b c : inside a b -> inside b c -> inside a c.
Proof. unfold inside. lia. Qed.

Lemma regions_disjoint_inside a b qa qb :
  inside a qa -> inside b qb -> regions_disjoint qa qb -> regions_disjoint a b.
Proof. unfold inside, regions_disjoint. lia. Qed.

Lemma FOP_app {A} (R : A -> A -> Prop) (l1 l2 : list A) :
  ForallOrdPairs R l1 -> ForallOrdPairs R l2 ->
  (forall a b, In a l1 -> In b l2 -> R a b) ->
  ForallOrdPairs R (l1 ++ l2).
Proof.
  induction 1 as [|a l1 Ha H1 IH]; intros H2 Hx; [done|].
  cbn [app]. constructor.
  - apply Forall_app. split; [done|].
    apply List.Forall_forall. intros b Hb. apply Hx; [by left|done].
  - apply IH; [done|]. intros a' b Ha' Hb. apply Hx; [by right|done].
Qed.

Lemma FOP_lookup {A} (R : A -> A -> Prop) (l : list A) :
  ForallOrdPairs R l ->
  forall (i j : nat) a b, l !! i = Some a -> l !! j = Some b -> (i < j)%nat -> R a b.
Proof.
  induction 1 as [|c l Hc _ IH]; intros i j a b Hi Hj Hij; [done|].
  destruct j as [|j]; [lia|]. cbn in Hj. destruct i as [|i].
  - cbn in Hi. injection Hi as <-.
    rewrite List.Forall_forall in Hc. apply Hc.
    apply list_elem_of_In. by eapply list_elem_of_lookup_2.
  - cbn in Hi. apply (IH i j); [done..|lia].
Qed.

Lemma leaves_nodes this n : In n (leaves this) -> In n (nodes this).
Proof. unfold leaves. by intros [? _]%List.filter_In. Qed.

(** The corners of the four quadrants of a region whose corners are
    [int] values, as lines 76 to 83 compute them. *)
Lemma quadrants_exact this :
  15 < _width this -> 15 < _height this -> representable this ->
  let cw := Int.div (_width this) 2 in
  let ch := Int.div (_height this) 2 in
  Int.add (x (_pos this)) cw = x (_pos this) + cw
  /\ Int.add (y (_pos this)) ch = y (_pos this) + ch
  /\ 8 <= cw /\ 8 <= ch
  /\ _width this = 2 * cw + _width this mod 2
  /\ _height this = 2 * ch + _height this mod 2.
Proof.
  intros Hw Hh (Hx & Hy & Hr & Hb). cbv zeta. unfold Int.div.
  rewrite !Z.quot_div_nonneg by lia.
  pose proof (Z.div_mod (_width this) 2 ltac:(lia)).
  pose proof (Z.div_mod (_height this) 2 ltac:(lia)).
  pose proof (Z.mod_pos_bound (_width this) 2 ltac:(lia)).
  pose proof (Z.mod_pos_bound (_height this) 2 ltac:(lia)).
  unfold representable, right_edge, bottom_edge, Int.in_range, Int.INT_MIN, Int.INT_MAX in *.
  repeat split; try lia; apply add_exact;
    unfold Int.in_range, Int.INT_MIN, Int.INT_MAX; lia.
Qed.

Lemma subdivides_regions this s this' s' :
  subdivides this s this' s' -> no_children this -> representable this ->
  (forall n, In n (nodes this') -> inside n this /\ representable n)
  /\ ForallOrdPairs regions_disjoint (leaves this').
Proof.
  induction_on_run; intros Hfresh Hrep.
  - rewrite leaves_no_children, nodes_no_children by done. split.
    + intros n [<-|[]]. split; [apply inside_refl|done].
    + constructor; [constructor|constructor].
  - fresh_children. apply cannot_subdivide_false in Hg as (Hw & Hh & _).
    destruct (quadrants_exact this Hw Hh Hrep) as (Ex & Ey & Hcw & Hch & Ew & Eh).
    cbv zeta in *. rewrite Ex, Ey in *.
    set (cw := Int.div (_width this) 2) in *. set (ch := Int.div (_height this) 2) in *.
    pose proof (Z.mod_pos_bound (_width this) 2 ltac:(lia)) as Mw.
    pose proof (Z.mod_pos_bound (_height this) 2 ltac:(lia)) as Mh.
    assert (forall i px py,
              x (_pos this) <= px -> px + cw <= right_edge this ->
              y (_pos this) <= py -> py + ch <= bottom_edge this ->
              representable (leaf i (mkPoint px py) cw ch)
              /\ inside (leaf i (mkPoint px py) cw ch) this) as Hq.
    { intros i px py ? ? ? ?. destruct Hrep as (Hx & Hy & Hr & Hb).
      unfold representable, inside, right_edge, bottom_edge, Int.in_range,
        Int.INT_MIN, Int.INT_MAX in *. cbn [leaf _pos _width _height x y]. lia. }
    unfold right_edge, bottom_edge in Hq.
    destruct (IHnw (leaf_no_children _ _ _ _)) as [N1 D1]; [apply Hq; lia|].
    destruct (IHne (leaf_no_children _ _ _ _)) as [N2 D2]; [apply Hq; lia|].
    destruct (IHsw (leaf_no_children _ _ _ _)) as [N3 D3]; [apply Hq; lia|].
    destruct (IHse (leaf_no_children _ _ _ _)) as [N4 D4]; [apply Hq; lia|].
    clear Hq.
    split.
    + intros n Hn. rewrite nodes_set_children in Hn. destruct Hn as [<-|Hn].
      { split; [unfold inside, right_edge, bottom_edge; cbn; lia|done]. }
      rewrite !in_app_iff in Hn.
      destruct Hn as [Hn|[Hn|[Hn|Hn]]];
        [apply N1 in Hn|apply N2 in Hn|apply N3 in Hn|apply N4 in Hn];
        destruct Hn as [Hi Hr]; (split; [|done]);
        revert Hi; unfold inside, right_edge, bottom_edge;
        cbn [leaf _pos _width _height x y]; lia.
    + rewrite leaves_set_children.
      repeat (apply FOP_app; [done| |]); try done;
        intros a b Ha Hb; rewrite ?in_app_iff in Hb;
        apply leaves_nodes in Ha;
        repeat match goal with
        | H : _ \/ _ |- _ => destruct H as [H|H]
        end;
        apply leaves_nodes in Hb;
        repeat match goal with
        | N : forall n, In n (nodes ?t) -> _, H : In _ (nodes ?t) |- _ =>
            apply N in H; destruct H as [H _]
        end;
        revert Ha Hb; unfold inside, regions_disjoint, right_edge, bottom_edge;
        cbn [leaf _pos _width _height x y]; lia.
Qed.

(** X7.  When the corners of the region of a node without children are
    [int] values, the region of every node of the tree [subdivide]
    leaves lies within that region, and its corners are [int] values
    too: no position computed by the subdivision overflows. *)
Theorem subdivide_nodes_inside (root : QuadTree) (s : State) (n : QuadTree) :
  no_children root ->
  representable root ->
  In n (nodes (fst (subdivide root s))) ->
  inside n root /\ representable n.
Proof.
  intros Hf Hr Hn.
  by apply (subdivides_regions _ _ _ _ (subdivide_subdivides root s) Hf Hr).
Qed.

Lemma subdivide_nodes_inside_witness :
  inside (leaf 4 (mkPoint 10 10) 10 10) (leaf 0 (mkPoint 0 0) 20 20)
  /\ representable (leaf 4 (mkPoint 10 10) 10 10).
Proof.
  apply (subdivide_nodes_inside (leaf 0 (mkPoint 0 0) 20 20)
           (snd (new_QuadTree (mkPoint 0 0) 20 20 initial_state))).
  - repeat split.
  - vm_compute. repeat split; discriminate.
  - vm_compute. auto 10.
Defined.

(** X8.  Under the same condition, the regions of two different leaves
    of the tree share no cell. *)
Theorem subdivide_leaves_disjoint (root : QuadTree) (s : State)
    (i j : nat) (a b : QuadTree) :
  no_children root ->
  representable root ->
  leaves (fst (subdivide root s)) !! i = Some a ->
  leaves (fst (subdivide root s)) !! j = Some b ->
  i <> j ->
  regions_disjoint a b.
Proof.
  intros Hf Hr Ha Hb Hij.
  destruct (subdivides_regions _ _ _ _ (subdivide_subdivides root s) Hf Hr) as [_ Hd].
  destruct (Nat.lt_ge_cases i j) as [Hlt|Hge].
  - by apply (FOP_lookup _ _ Hd i j).
  - assert (regions_disjoint b a) as Hba by (apply (FOP_lookup _ _ Hd j i); [done..|lia]).
    revert Hba. unfold regions_disjoint. lia.
Qed.

Lemma subdivide_leaves_disjoint_witness :
  regions_disjoint (leaf 1 (mkPoint 0 0) 10 10) (leaf 4 (mkPoint 10 10) 10 10).
Proof.
  apply (subdivide_leaves_disjoint (leaf 0 (mkPoint 0 0) 20 20)
           (snd (new_QuadTree (mkPoint 0 0) 20 20 initial_state)) 0 3).
  - repeat split.
  - vm_compute. repeat split; discriminate.
  - vm_compute. reflexivity.
  - vm_compute. reflexivity.
  - lia.
Defined.

(** X9.  Under the same condition, the four children of a node of the
    tree touch one another without a gap, and together they cover the
    node except for its last column when its width is odd and its last
    row when its height is odd. *)
Theorem children_cover (root : QuadTree) (s : State) (n nw ne sw se : QuadTree) :
  no_children root ->
  representable root ->
  In n (nodes (fst (subdivide root s))) ->
  children n = [nw; ne; sw; se] ->
  (x (_pos nw) = x (_pos n) /\ y (_pos nw) = y (_pos n))
  /\ (x (_pos ne) = right_edge nw /\ y (_pos ne) = y (_pos n))
  /\ (x (_pos sw) = x (_pos n) /\ y (_pos sw) = bottom_edge nw)
  /\ (x (_pos se) = right_edge nw /\ y (_pos se) = bottom_edge nw)
  /\ right_edge ne = right_edge n - _width n mod 2
  /\ right_edge se = right_edge n - _width n mod 2
  /\ bottom_edge sw = bottom_edge n - _height n mod 2
  /\ bottom_edge se = bottom_edge n - _height n mod 2.
Proof.
  intros Hf Hr Hn Hc.
  destruct (subdivides_regions _ _ _ _ (subdivide_subdivides root s) Hf Hr) as [Hin _].
  destruct (Hin n Hn) as [_ Hrep].
  pose proof (subdivides_shaped _ _ _ _ (subdivide_subdivides root s) Hf) as Hall.
  rewrite List.Forall_forall in Hall. specialize (Hall n Hn).
  apply children_four in Hc as (E1 & E2 & E3 & E4).
  destruct Hall as [[(E & _) _]|(Hw & Hh & Hq)]; [congruence|].
  destruct Hq as (nw0 & ne0 & sw0 & se0 & F1 & F2 & F3 & F4
                  & (W1 & H1 & P1) & (W2 & H2 & P2) & (W3 & H3 & P3) & (W4 & H4 & P4)).
  assert (nw0 = nw) as -> by congruence. assert (ne0 = ne) as -> by congruence.
  assert (sw0 = sw) as -> by congruence. assert (se0 = se) as -> by congruence.
  destruct (quadrants_exact n Hw Hh Hrep) as (Ex & Ey & _ & _ & Ew & Eh).
  cbv zeta in *. rewrite Ex, Ey in *.
  unfold right_edge, bottom_edge.
  rewrite P1, P2, P3, P4, W1, W2, W4, H1, H3, H4. cbn [x y]. lia.
Qed.

Lemma children_cover_witness :
  (x (_pos (leaf 1 (mkPoint 0 0) 10 10)) = x (_pos small_tree)
   /\ y (_pos (leaf 1 (mkPoint 0 0) 10 10)) = y (_pos small_tree))
  /\ (x (_pos (leaf 2 (mkPoint 10 0) 10 10)) = right_edge (leaf 1 (mkPoint 0 0) 10 10)
      /\ y (_pos (leaf 2 (mkPoint 10 0) 10 10)) = y (_pos small_tree))
  /\ (x (_pos (leaf 3 (mkPoint 0 10) 10 10)) = x (_pos small_tree)
      /\ y (_pos (leaf 3 (mkPoint 0 10) 10 10)) = bottom_edge (leaf 1 (mkPoint 0 0) 10 10))
  /\ (x (_pos (leaf 4 (mkPoint 10 10) 10 10)) = right_edge (leaf 1 (mkPoint 0 0) 10 10)
      /\ y (_pos (leaf 4 (mkPoint 10 10) 10 10)) = bottom_edge (leaf 1 (mkPoint 0 0) 10 10))
  /\ right_edge (leaf 2 (mkPoint 10 0) 10 10)
     = right_edge small_tree - _width small_tree mod 2
  /\ right_edge (leaf 4 (mkPoint 10 10) 10 10)
     = right_edge small_tree - _width small_tree mod 2
  /\ bottom_edge (leaf 3 (mkPoint 0 10) 10 10)
     = bottom_edge small_tree - _height small_tree mod 2
  /\ bottom_edge (leaf 4 (mkPoint 10 10) 10 10)
     = bottom_edge small_tree - _height small_tree mod 2.
Proof.
  apply (children_cover (leaf 0 (mkPoint 0 0) 20 20)
           (snd (new_QuadTree (mkPoint 0 0) 20 20 initial_state)) small_tree).
  - repeat split.
  - vm_compute. repeat split; discriminate.
  - apply nodes_self.
  - vm_compute. reflexivity.
Defined.

(** ** Identities along the tree *)

Lemma subdivides_identities this s this' s' :
  subdivides this s this' s' -> no_children this ->
  Int.INT_MIN <= nextId s ->
  nextId s + Z.of_nat (length (descendants this')) <= Int.INT_MAX ->
  map _id (descendants this') = seqZ (nextId s) (Z.of_nat (length (descendants this')))
  /\ nextId s' = nextId s + Z.of_nat (length (descendants this')).
Proof.
  intros Hrun Hf Hlo Hhi.
  destruct (subdivides_counted _ _ _ _ Hrun) as (k & Hlen & Hk).
  pose proof (subdivides_created _ _ _ _ Hrun Hf) as Hc.
  assert (k = length (descendants this')) as ->.
  { rewrite Hc, length_app, length_map in Hlen. lia. }
  destruct Hk as [Hk Hn]; [done..|]. split; [|done].
  rewrite Hc in Hk. by apply app_inv_head in Hk.
Qed.

Lemma increment_exact a :
  Int.INT_MIN <= a -> a + 1 <= Int.INT_MAX -> Int.add a 1 = a + 1.
Proof.
  intros Hlo Hhi. apply add_exact.
  revert Hlo Hhi. unfold Int.in_range, Int.INT_MIN, Int.INT_MAX. lia.
Qed.

(** The four constructor calls of the splitting rule, counter in range. *)
Lemma four_constructors s p1 p2 p3 p4 w h nw ne sw se s1 s2 s3 s4 :
  new_QuadTree p1 w h s = (nw, s1) ->
  new_QuadTree p2 w h s1 = (ne, s2) ->
  new_QuadTree p3 w h s2 = (sw, s3) ->
  new_QuadTree p4 w h s3 = (se, s4) ->
  Int.INT_MIN <= nextId s ->
  nextId s + 4 <= Int.INT_MAX ->
  (_id nw = nextId s /\ _id ne = nextId s + 1
   /\ _id sw = nextId s + 2 /\ _id se = nextId s + 3)
  /\ nextId s4 = nextId s + 4
  /\ (no_children nw /\ no_children ne /\ no_children sw /\ no_children se).
Proof.
  intros Enw Ene Esw Ese Hlo Hhi. fresh_children. cbn [nextId leaf _id].
  rewrite (increment_exact (nextId s)) by lia.
  rewrite (increment_exact (nextId s + 1)) by lia.
  rewrite (increment_exact (nextId s + 1 + 1)) by lia.
  rewrite (increment_exact (nextId s + 1 + 1 + 1)) by lia.
  repeat split; lia.
Qed.

Lemma subdivides_parent_first this s this' s' :
  subdivides this s this' s' -> no_children this ->
  _id this < nextId s ->
  Int.INT_MIN <= nextId s ->
  nextId s + Z.of_nat (length (descendants this')) <= Int.INT_MAX ->
  forall n c, In n (nodes this') -> In c (children n) -> _id n < _id c.
Proof.
  induction_on_run; intros Hfresh Hid Hlo Hhi n c Hn Hc.
  - rewrite nodes_no_children in Hn by done. destruct Hn as [<-|[]].
    destruct this as [? ? ? ? ? ? ? ?]. destruct Hfresh as (E1 & E2 & E3 & E4).
    cbn in E1, E2, E3, E4. subst. destruct Hc.
  - rewrite descendants_set_children, !length_app in Hhi. cbn [length] in Hhi.
    destruct (four_constructors _ _ _ _ _ _ _ _ _ _ _ _ _ _ _ Enw Ene Esw Ese Hlo)
      as ((I1 & I2 & I3 & I4) & N4 & (F1 & F2 & F3 & F4)); [lia|].
    clear Enw Ene Esw Ese.
    destruct (subdivides_identities _ _ _ _ Hnw F1) as [_ J1]; [lia..|].
    destruct (subdivides_identities _ _ _ _ Hne F2) as [_ J2]; [lia..|].
    destruct (subdivides_identities _ _ _ _ Hsw F3) as [_ J3]; [lia..|].
    apply subdivides_root in Hnw as (R1 & _), Hne as (R2 & _),
      Hsw as (R3 & _), Hse as (R4 & _).
    rewrite nodes_set_children in Hn. destruct Hn as [<-|Hn].
    { cbn in Hc. destruct Hc as [<-|[<-|[<-|[<-|[]]]]]; cbn [_id set_children]; lia. }
    rewrite !in_app_iff in Hn.
    destruct Hn as [Hn|[Hn|[Hn|Hn]]];
      [apply (IHnw F1)|apply (IHne F2)|apply (IHsw F3)|apply (IHse F4)];
      solve [done | lia].
Qed.

(** X10.  In a tree built by a constructor call followed by [subdivide],
    every node has a smaller identity than each of its children (hence
    than each of its descendants), as long as the count of nodes fits
    the counter. *)
Theorem parent_before_child (pos : Point) (w h : Z) (s : State) (n c : QuadTree) :
  Int.INT_MIN <= nextId s ->
  nextId s + Z.of_nat (length (nodes (fst (build pos w h s)))) <= Int.INT_MAX ->
  In n (nodes (fst (build pos w h s))) ->
  In c (children n) ->
  _id n < _id c.
Proof.
  intros Hlo Hhi Hn Hc.
  pose proof (build_subdivides pos w h s) as Hrun.
  rewrite (Permutation_length (nodes_construction_order _)) in Hhi.
  cbn [construction_order length] in Hhi.
  rewrite new_QuadTree_eq in Hrun. cbn [snd] in Hrun.
  assert (Int.add (nextId s) 1 = nextId s + 1) as E by (apply increment_exact; lia).
  apply (subdivides_parent_first _ _ _ _ Hrun);
    [apply leaf_no_children | cbn [leaf _id nextId]; lia | cbn [nextId]; lia
    | cbn [nextId]; lia | exact Hn | exact Hc].
Qed.

Lemma parent_before_child_witness :
  _id small_tree < _id (leaf 3 (mkPoint 0 10) 10 10).
Proof.
  apply (parent_before_child (mkPoint 0 0) 20 20 initial_state).
  - vm_compute. discriminate.
  - vm_compute. discriminate.
  - apply nodes_self.
  - vm_compute. auto.
Defined.

(** ** Calling twice *)

(** X11.  Whatever the node, a call of [subdivide] right after a call of
    [subdivide] on the same node finds the guard closed: it returns the
    tree of the first call as it is, runs no constructor, leaves the
    counter alone, and only writes the diagnostic of the node. *)
Theorem second_call_is_guarded (this : QuadTree) (s s2 : State) :
  subdivide (fst (subdivide this s)) s2
  = (fst (subdivide this s),
     mkState (nextId s2) (cout s2 ++ diagnostic (fst (subdivide this s)))%string
             (created s2)).
Proof. apply subdivide_stop, cannot_subdivide_after. Qed.

(** ** Decimal numerals *)

Local Open Scope string_scope.

Lemma avoids_append ch a b : avoids ch (a ++ b) = avoids ch a && avoids ch b.
Proof. induction a as [|c a IH]; cbn; [done | by rewrite IH, andb_assoc]. Qed.

Lemma avoids_uint ch d :
  avoids ch "0123456789" = true -> avoids ch (NilEmpty.string_of_uint d) = true.
Proof.
  cbn. rewrite !andb_true_iff. intros (? & ? & ? & ? & ? & ? & ? & ? & ? & ? & _).
  induction d; cbn; rewrite ?andb_true_iff; auto.
Qed.

(** A numeral is made of digits and a sign. *)
Lemma avoids_to_string ch z :
  avoids ch "-0123456789" = true -> avoids ch (Int.to_string z) = true.
Proof.
  intros H. change (avoids ch "-0123456789") with
    (negb (Ascii.eqb "-" ch) && avoids ch "0123456789") in H.
  apply andb_true_iff in H as [Hm Hd].
  pose proof (avoids_uint ch) as Hu.
  unfold Int.to_string, NilZero.string_of_int, NilZero.string_of_uint.
  destruct (Z.to_int z) as [d|d]; destruct d; cbn [avoids]; rewrite ?Hm; cbn [andb];
    try (apply (Hu _ Hd)).
  all: revert Hd; cbn; rewrite !andb_true_iff; tauto.
Qed.

(** Two texts that agree up to the first occurrence of a character. *)
Lemma split_at_first ch : forall a a' r r',
  avoids ch a = true -> avoids ch a' = true ->
  a ++ String ch r = a' ++ String ch r' -> a = a' /\ r = r'.
Proof.
  induction a as [|c a IH]; intros [|c' a'] r r' Ha Ha' E; cbn in *.
  - by injection E as <-.
  - injection E as <- _. by rewrite Ascii.eqb_refl in Ha'.
  - injection E as -> _. by rewrite Ascii.eqb_refl in Ha.
  - injection E as <- E. apply andb_true_iff in Ha as [_ Ha], Ha' as [_ Ha'].
    destruct (IH a' r r' Ha Ha' E) as [-> ->]. done.
Qed.

Lemma to_string_inj a b : Int.to_string a = Int.to_string b -> a = b.
Proof.
  unfold Int.to_string. intros E.
  assert (forall z, Z.to_int z <> Decimal.Pos Decimal.Nil
                    /\ Z.to_int z <> Decimal.Neg Decimal.Nil) as Hnil.
  { intros [|p|p]; cbn; split; try discriminate; intros [= H];
      by apply DecimalPos.Unsigned.to_uint_nonnil in H. }
  apply (f_equal NilZero.int_of_string) in E.
  rewrite !NilZero.isi in E by apply Hnil.
  injection E as E. by apply DecimalZ.to_int_inj.
Qed.

(** X12.  [Point::toString] tells points apart: two points with the
    same text are the same point. *)
Theorem Point_toString_inj (p q : Point) :
  Point_toString p = Point_toString q -> p = q.
Proof.
  unfold Point_toString. intros E. injection E as E.
  apply (split_at_first ","%char) in E as [Ex E];
    [|by apply avoids_to_string..].
  injection E as E.
  apply (split_at_first ")"%char) in E as [Ey _];
    [|by apply avoids_to_string..].
  apply to_string_inj in Ex, Ey. destruct p, q. cbn in *. by subst.
Qed.

Lemma Point_toString_inj_witness : mkPoint 3 (-4) = mkPoint 3 (-4).
Proof.
  apply (Point_toString_inj (mkPoint 3 (-4)) (mkPoint 3 (-4))). reflexivity.
Defined.

Local Close Scope string_scope.

(** ** Declarations and edges of the export *)

Local Open Scope string_scope.

Lemma occurs_arrow_avoids text : avoids ">" text = true -> occurs "->" text = false.
Proof.
  induction text as [|c text IH]; [done|]. intros H.
  cbn [avoids] in H. apply andb_true_iff in H as [_ H].
  cbn [occurs]. rewrite (IH H), orb_false_r.
  cbn [String.prefix]. destruct (ascii_dec "-" c) as [_|_]; [|done].
  destruct text as [|c' text]; cbn [String.prefix]; [done|].
  cbn [avoids] in H. apply andb_true_iff in H as [Hc' _].
  apply negb_true_iff, Ascii.eqb_neq in Hc'.
  destruct (ascii_dec ">" c') as [<-|_]; done.
Qed.

Lemma occurs_append pat a b : occurs pat b = true -> occurs pat (a ++ b) = true.
Proof.
  intros H. induction a as [|c a IH]; [done|].
  cbn [append occurs]. by rewrite IH, orb_true_r.
Qed.

Lemma node_line_no_arrow this : is_edge_line (node_line this) = false.
Proof.
  apply occurs_arrow_avoids. unfold node_line, Point_toString.
  destruct (is_null (_northWest this));
    rewrite ?avoids_append, ?avoids_to_string; reflexivity.
Qed.

Lemma edge_line_arrow this c label : is_edge_line (edge_line this c label) = true.
Proof.
  unfold is_edge_line, edge_line.
  change ("  node_" ++ ?r) with (String " " (String " " ("node_" ++ r))).
  do 2 (cbn [occurs]; apply orb_true_iff; right).
  apply (occurs_append _ "node_"), occurs_append. reflexivity.
Qed.

Local Close Scope string_scope.

Lemma filter_cons_if {A} (f : A -> bool) (a : A) (l : list A) :
  List.filter f (a :: l) = (if f a then [a] else []) ++ List.filter f l.
Proof. cbn. by destruct (f a). Qed.

Lemma dotty_lines_declarations : forall this,
  List.filter (fun l => negb (is_edge_line l)) (dotty_lines this)
  = map node_line (nodes this).
Proof.
  induction this as [id pos w h nw ne sw se Hnw Hne Hsw Hse] using QuadTree_ind.
  cbn [dotty_lines nodes _northWest _northEast _southWest _southEast map].
  rewrite filter_cons_if, node_line_no_arrow. cbn [negb app]. f_equal.
  rewrite !List.filter_app, !map_app.
  destruct nw, ne, sw, se; cbn [holds_at] in *;
    rewrite ?filter_cons_if, ?edge_line_arrow, ?Hnw, ?Hne, ?Hsw, ?Hse; reflexivity.
Qed.

Lemma filter_edge_line this c label (l : list string) :
  filter (fun l => is_edge_line l = true) (edge_line this c label :: l)
  = edge_line this c label :: filter (fun l => is_edge_line l = true) l.
Proof. apply filter_cons_True, edge_line_arrow. Qed.

Lemma dotty_lines_edges : forall this,
  filter (fun l => is_edge_line l = true) (dotty_lines this)
  = map edge_row (edges this).
Proof.
  induction this as [id pos w h nw ne sw se Hnw Hne Hsw Hse] using QuadTree_ind.
  cbn [dotty_lines edges _northWest _northEast _southWest _southEast].
  rewrite filter_cons_False by (rewrite node_line_no_arrow; discriminate).
  rewrite !list.filter_app, !map_app.
  destruct nw, ne, sw, se; cbn [holds_at map] in *;
    rewrite ?filter_nil, ?filter_edge_line, ?Hnw, ?Hne, ?Hsw, ?Hse; reflexivity.
Qed.

Lemma edges_count : forall this, S (length (edges this)) = length (nodes this).
Proof.
  induction this as [id pos w h nw ne sw se Hnw Hne Hsw Hse] using QuadTree_ind.
  cbn [edges nodes _northWest _northEast _southWest _southEast length].
  rewrite !length_app.
  destruct nw, ne, sw, se; cbn [holds_at length] in *; lia.
Qed.

(** X13.  Whatever the tree, the lines of its export that are not edges
    are the two lines of the header, then the declaration of every node,
    one each and in depth-first preorder, then the closing line. *)
Theorem export_declarations (this : QuadTree) :
  List.filter (fun l => negb (is_edge_line l)) (lines (toDotty this))
  = "digraph QuadTree {"%string
      :: "  node [shape=box, style=filled, fillcolor=lightblue];"%string
      :: map node_line (nodes this) ++ ["}"%string].
Proof.
  rewrite lines_toDotty. rewrite !filter_cons_if.
  change (is_edge_line "digraph QuadTree {") with false.
  change (is_edge_line "  node [shape=box, style=filled, fillcolor=lightblue];") with false.
  cbn [negb app]. do 2 f_equal.
  by rewrite List.filter_app, dotty_lines_declarations.
Qed.

(** X14.  Whatever the tree, the edge declarations of its export are the
    links from a node to each child it has, labelled by the pointer,
    parent before child and depth first; there is one edge less than
    there are nodes. *)
Theorem export_edges (this : QuadTree) :
  edge_lines (toDotty this) = map edge_row (edges this)
  /\ S (length (edge_lines (toDotty this))) = length (nodes this).
Proof.
  assert (edge_lines (toDotty this) = map edge_row (edges this)) as E.
  { unfold edge_lines. rewrite lines_toDotty.
    rewrite filter_cons_False by (vm_compute; discriminate).
    rewrite filter_cons_False by (vm_compute; discriminate).
    rewrite list.filter_app, dotty_lines_edges.
    rewrite filter_cons_False by (vm_compute; discriminate).
    by rewrite filter_nil, app_nil_r. }
  split; [done|]. rewrite E, length_map. apply edges_count.
Qed.

Lemma node_line_id a b : node_line a = node_line b -> _id a = _id b.
Proof.
  unfold node_line. intros E. cbn [String.append] in E.
  injection E as E.
  apply to_string_inj.
  apply (split_at_first " "%char) in E as [E _]; [done|by apply avoids_to_string..].
Qed.

Lemma NoDup_map_finer {A B C} (f : A -> B) (g : A -> C) (l : list A) :
  (forall a b, g a = g b -> f a = f b) ->
  NoDup (map f l) -> NoDup (map g l).
Proof.
  intros Hfg. rewrite !NoDup_ListNoDup.
  induction l as [|a l IH]; cbn [map]; [constructor|].
  intros [Hin Hnd]%List.NoDup_cons_iff. apply List.NoDup_cons; [|by apply IH].
  intros (b & Hb & Hbl)%in_map_iff. apply Hin, in_map_iff.
  exists b. split; [by apply Hfg|done].
Qed.

(** X15.  In a tree built by a constructor call followed by
    [subdivide], no two nodes have the same identity, so no two nodes
    have the same declaration line in the export, as long as the count
    of nodes fits the counter. *)
Theorem built_nodes_distinct (pos : Point) (w h : Z) (s : State) :
  Int.INT_MIN <= nextId s ->
  nextId s + Z.of_nat (length (nodes (fst (build pos w h s)))) <= Int.INT_MAX ->
  NoDup (map _id (nodes (fst (build pos w h s))))
  /\ NoDup (map node_line (nodes (fst (build pos w h s)))).
Proof.
  intros Hlo Hhi.
  assert (NoDup (map _id (nodes (fst (build pos w h s))))) as Hnd.
  { rewrite (Permutation_map _id (nodes_construction_order _)).
    rewrite build_identities by done. apply NoDup_seqZ. }
  split; [done|].
  by apply (NoDup_map_finer _id node_line _ node_line_id).
Qed.

Lemma built_nodes_distinct_witness :
  NoDup (map _id (nodes (fst (build (mkPoint 0 0) 20 20 initial_state))))
  /\ NoDup (map node_line (nodes (fst (build (mkPoint 0 0) 20 20 initial_state)))).
Proof.
  apply (built_nodes_distinct (mkPoint 0 0) 20 20 initial_state).
  - vm_compute. discriminate.
  - vm_compute. discriminate.
Defined.

(** ** How deep the tree is *)

Lemma levels_fuel_bound fuel : forall w h,
  levels_fuel fuel w h = O
  \/ (Z.of_nat (levels_fuel fuel w h) + 3 <= Z.log2 w
      /\ Z.of_nat (levels_fuel fuel w h) + 3 <= Z.log2 h).
Proof.
  induction fuel as [|fuel IH]; intros w h; [by left|].
  cbn [levels_fuel].
  destruct (Z.leb_spec w 15) as [Hw|Hw]; [by left|].
  destruct (Z.leb_spec h 15) as [Hh|Hh]; [by left|]. cbn [orb]. right.
  assert (4 <= Z.log2 w) by (change 4 with (Z.log2 16); apply Z.log2_le_mono; lia).
  assert (4 <= Z.log2 h) by (change 4 with (Z.log2 16); apply Z.log2_le_mono; lia).
  destruct (IH (Int.div w 2) (Int.div h 2)) as [->|[B1 B2]]; [lia|].
  rewrite !log2_div_2 in * by lia. lia.
Qed.

(** X16.  The tree [subdivide] leaves of a node without children is
    either that node alone or at most [log2 width - 3] and at most
    [log2 height - 3] levels deep; the recursion of [subdivide] is no
    deeper. *)
Theorem subdivide_height_bound (root : QuadTree) (s : State) :
  no_children root ->
  height (fst (subdivide root s)) = O
  \/ (Z.of_nat (height (fst (subdivide root s))) + 3 <= Z.log2 (_width root)
      /\ Z.of_nat (height (fst (subdivide root s))) + 3 <= Z.log2 (_height root)).
Proof.
  intros Hf.
  pose proof (subdivides_perfect _ _ _ _ (subdivide_subdivides root s) Hf) as Hp.
  rewrite (perfect_height _ _ Hp). apply levels_fuel_bound.
Qed.

Lemma subdivide_height_bound_witness :
  height (fst (subdivide (leaf 0 (mkPoint 0 0) 20 20) initial_state)) = O
  \/ (Z.of_nat (height (fst (subdivide (leaf 0 (mkPoint 0 0) 20 20) initial_state))) + 3
      <= Z.log2 (_width (leaf 0 (mkPoint 0 0) 20 20))
      /\ Z.of_nat (height (fst (subdivide (leaf 0 (mkPoint 0 0) 20 20) initial_state))) + 3
         <= Z.log2 (_height (leaf 0 (mkPoint 0 0) 20 20))).
Proof.
  apply (subdivide_height_bound (leaf 0 (mkPoint 0 0) 20 20) initial_state).
  repeat split.
Defined.

(** ** The tree is complete *)

Lemma shaped_cannot_subdivide n : shaped n -> cannot_subdivide n = true.
Proof.
  unfold cannot_subdivide.
  intros [[_ [Hw|Hh]]|(_ & _ & (nw & ? & ? & ? & E & _))].
  - apply Z.leb_le in Hw. by rewrite Hw.
  - apply Z.leb_le in Hh. by rewrite Hh, orb_true_r.
  - rewrite E. cbn. apply orb_true_r.
Qed.

(** X17.  Once [subdivide] has run on a node without children, no node
    of the tree can be subdivided any further: [subdivide] on any of
    them returns it as it is, runs no constructor and leaves the counter
    alone. *)
Theorem subdivided_tree_is_complete (root : QuadTree) (s : State) (n : QuadTree)
    (s2 : State) :
  no_children root ->
  In n (nodes (fst (subdivide root s))) ->
  fst (subdivide n s2) = n
  /\ nextId (snd (subdivide n s2)) = nextId s2
  /\ created (snd (subdivide n s2)) = created s2.
Proof.
  intros Hf Hn.
  pose proof (subdivides_shaped _ _ _ _ (subdivide_subdivides root s) Hf) as Hall.
  rewrite List.Forall_forall in Hall. specialize (Hall n Hn).
  by rewrite (subdivide_stop n s2 (shaped_cannot_subdivide n Hall)).
Qed.

Lemma subdivided_tree_is_complete_witness :
  fst (subdivide (leaf 2 (mkPoint 10 0) 10 10) initial_state) = leaf 2 (mkPoint 10 0) 10 10
  /\ nextId (snd (subdivide (leaf 2 (mkPoint 10 0) 10 10) initial_state))
     = nextId initial_state
  /\ created (snd (subdivide (leaf 2 (mkPoint 10 0) 10 10) initial_state))
     = created initial_state.
Proof.
  apply (subdivided_tree_is_complete (leaf 0 (mkPoint 0 0) 20 20)
           (snd (new_QuadTree (mkPoint 0 0) 20 20 initial_state))).
  - repeat split.
  - vm_compute. auto.
Defined.
